(** * kagi-mcp: the conversational exchange engine of the assistant tool

    A shallow embedding of [src/tools/assistant.js] (with the helpers it
    imports from [src/utils/formatting.js] and [src/utils/auth.js]) and the
    properties of its streaming-response parser, reply formatter, request
    builder, model validation and error boundary. *)

From Stdlib Require Import String Ascii DecimalString.
From Stdlib Require Import Floats.PrimFloat.
From Stdlib Require Import NArith ZArith Bool Lia List.
Import ListNotations.

(* ================================================================== *)
(** * JavaScript strings *)
(* ================================================================== *)

(** A JavaScript string is a sequence of UTF-16 code units. *)
Definition jsstring := list N.

(** An ASCII literal as a JavaScript string. *)
Definition js (s : string) : jsstring :=
  map N_of_ascii (list_ascii_of_string s).

Definition DQUOTE : N := 34.     (* the double quote character *)
Definition BACKSLASH : N := 92.
Definition LBRACE : N := 123.
Definition RBRACE : N := 125.
Definition LF : N := 10.

(** A literal in which every apostrophe stands for a double quote; used
    to write down JSON documents. *)
Definition jsq (s : string) : jsstring :=
  map (fun c => if N.eqb c 39 then DQUOTE else c) (js s).

Fixpoint str_eqb (a b : jsstring) : bool :=
  match a, b with
  | [], [] => true
  | x :: a', y :: b' => N.eqb x y && str_eqb a' b'
  | _, _ => false
  end.

(** WhiteSpace and LineTerminator code points of ECMAScript: what
    [String.prototype.trim] strips and what [\s] matches. *)
Definition isWhiteSpace (c : N) : bool :=
  (((9 <=? c) && (c <=? 13)) || (c =? 32) || (c =? 160) || (c =? 5760)
   || ((8192 <=? c) && (c <=? 8202)) || (c =? 8232) || (c =? 8233)
   || (c =? 8239) || (c =? 8287) || (c =? 12288) || (c =? 65279))%N.

Fixpoint trimStart (s : jsstring) : jsstring :=
  match s with
  | c :: s' => if isWhiteSpace c then trimStart s' else s
  | [] => []
  end.

Definition trimEnd (s : jsstring) : jsstring := rev (trimStart (rev s)).

Definition trim (s : jsstring) : jsstring := trimEnd (trimStart s).

(** [startsWith s pat]: [pat] is a prefix of [s]. *)
Fixpoint startsWith (s pat : jsstring) {struct pat} : bool :=
  match pat, s with
  | [], _ => true
  | p :: pat', c :: s' => N.eqb p c && startsWith s' pat'
  | _ :: _, [] => false
  end.

(** [occursAt text pat k]: [pat] occurs in [text] at index [k]. *)
Definition occursAt (text pat : jsstring) (k : nat) : bool :=
  startsWith (skipn k text) pat.

(** [String.prototype.lastIndexOf]: candidate positions are tried from
    [text.length - pat.length] down to 0; [None] stands for -1. *)
Fixpoint lastIndexOfFrom (text pat : jsstring) (k : nat) : option nat :=
  if occursAt text pat k then Some k
  else match k with
       | O => None
       | S k' => lastIndexOfFrom text pat k'
       end.

Definition lastIndexOf (text pat : jsstring) : option nat :=
  if (length pat <=? length text)%nat
  then lastIndexOfFrom text pat (length text - length pat)
  else None.

(** [String.prototype.indexOf]: the first position at which [pat] occurs. *)
Fixpoint indexOf (text pat : jsstring) : option nat :=
  if startsWith text pat then Some O
  else match text with
       | [] => None
       | _ :: text' => option_map S (indexOf text' pat)
       end.

(** [text.substring(from)] for [0 <= from]. *)
Definition substring (text : jsstring) (from : nat) : jsstring := skipn from text.

(** [Array.prototype.join]. *)
Fixpoint join (sep : jsstring) (parts : list jsstring) : jsstring :=
  match parts with
  | [] => []
  | [p] => p
  | p :: rest => p ++ sep ++ join sep rest
  end.

(** [String.prototype.split] with a one-character separator. *)
Fixpoint splitOn (sep : N) (s : jsstring) : list jsstring :=
  match s with
  | [] => [[]]
  | c :: s' =>
      if N.eqb c sep then [] :: splitOn sep s'
      else match splitOn sep s' with
           | [] => [[c]]
           | first :: rest => (c :: first) :: rest
           end
  end.

(* ================================================================== *)
(** * The streaming response parser: [extractJson] *)
(* ================================================================== *)

(** The body of the [for] loop of [extractJson], over the characters from
    index [i] on.  [count], [inString], [escape] and [jsonChars] are the
    loop's variables. *)
Fixpoint scanLoop (rest : jsstring) (count : Z) (inString escape : bool)
         (jsonChars : jsstring) : option jsstring :=
  match rest with
  | [] => None                                    (* loop exhausted: return null *)
  | char :: rest' =>
      let jsonChars := jsonChars ++ [char] in
      if negb inString then
        if N.eqb char LBRACE then
          scanLoop rest' (count + 1) inString false jsonChars
        else if N.eqb char RBRACE then
          let count := (count - 1)%Z in
          if (count =? 0)%Z then Some jsonChars
          else scanLoop rest' count inString false jsonChars
        else scanLoop rest' count inString false jsonChars
      else if N.eqb char BACKSLASH && negb escape then
        scanLoop rest' count inString true jsonChars         (* continue *)
      else if N.eqb char DQUOTE && negb escape then
        scanLoop rest' count (negb inString) false jsonChars
      else scanLoop rest' count inString false jsonChars
  end.

(** Lines 138-172 of [extractJson]: what is done with the text that
    follows the marker. *)
Definition extractObject (afterMarker : jsstring) : option jsstring :=
  let lastPart := trim afterMarker in
  match indexOf lastPart [LBRACE] with
  | None => None
  | Some start => scanLoop (skipn start lastPart) 0 false false []
  end.

Definition extractJson (text marker : jsstring) : option jsstring :=
  match lastIndexOf text marker with
  | None => None
  | Some markerPos => extractObject (substring text (markerPos + length marker))
  end.

(** The brace counter the loop amounts to when the string flag is never
    set: every brace counts, quoted or not. *)
Fixpoint countBraces (rest : jsstring) (count : Z) (jsonChars : jsstring)
  : option jsstring :=
  match rest with
  | [] => None
  | char :: rest' =>
      let jsonChars := jsonChars ++ [char] in
      if N.eqb char LBRACE then countBraces rest' (count + 1) jsonChars
      else if N.eqb char RBRACE then
        if (count - 1 =? 0)%Z then Some jsonChars
        else countBraces rest' (count - 1) jsonChars
      else countBraces rest' count jsonChars
  end.

Definition MESSAGE_MARKER : jsstring := js "new_message.json:".
Definition THREAD_MARKER : jsstring := js "thread.json:".


(* ================================================================== *)
(** * Regular expressions, as far as the formatter uses them *)
(* ================================================================== *)

(** The pattern language of the literals in [htmlToMarkdown] and
    [htmlToPlain]: characters, classes, sequence, alternation, greedy and
    lazy repetition, and numbered capture groups.  No pattern of the
    source has an anchor, a look-around or a group under a quantifier. *)
Inductive regex : Type :=
| Eps
| Char (c : N)
| Class (p : N -> bool)
| Seq (r1 r2 : regex)
| Alt (r1 r2 : regex)
| Star (r : regex)           (* r*  : greedy *)
| LazyStar (r : regex)       (* r*? : lazy *)
| Group (n : nat) (r : regex).

Definition Plus (r : regex) : regex := Seq r (Star r).            (* r+ *)
Definition Opt (r : regex) : regex := Alt r Eps.                  (* r? *)
Definition AtLeast3 (r : regex) : regex := Seq r (Seq r (Seq r (Star r))). (* r{3,} *)

(** A literal run of characters. *)
Fixpoint Lit (s : jsstring) : regex :=
  match s with
  | [] => Eps
  | c :: s' => Seq (Char c) (Lit s')
  end.

(** [.] without the [s] flag: anything but a line terminator. *)
Definition dot (c : N) : bool :=
  negb ((c =? 10) || (c =? 13) || (c =? 8232) || (c =? 8233))%N.
(** [.] with the [s] flag. *)
Definition dotAll (c : N) : bool := true.
Definition digit1to6 (c : N) : bool := ((49 <=? c) && (c <=? 54))%N.   (* [1-6] *)
Definition notGt (c : N) : bool := negb (c =? 62)%N.                    (* [^>] *)

(** The captures of a match, most recent first. *)
Definition captures := list (nat * jsstring).

Fixpoint capture (n : nat) (caps : captures) : jsstring :=
  match caps with
  | [] => []                      (* an unset group substitutes as empty *)
  | (m, s) :: caps' => if Nat.eqb n m then s else capture n caps'
  end.

Definition matchResult := option (jsstring * captures).
Definition continuation := jsstring -> captures -> matchResult.

(** Greedy repetition of [step]: one more iteration is tried first, then
    the continuation; an iteration that consumes nothing is rejected.
    At most [length s] iterations consume a character each, which
    [fuel = S (length s)] covers. *)
Fixpoint greedyLoop (step : jsstring -> captures -> continuation -> matchResult)
         (k : continuation) (fuel : nat) (s : jsstring) (caps : captures)
  : matchResult :=
  match fuel with
  | O => k s caps
  | S fuel' =>
      match step s caps
              (fun s' caps' =>
                 if (length s' <? length s)%nat
                 then greedyLoop step k fuel' s' caps'
                 else None)
      with
      | Some res => Some res
      | None => k s caps
      end
  end.

(** Lazy repetition: the continuation is tried first. *)
Fixpoint lazyLoop (step : jsstring -> captures -> continuation -> matchResult)
         (k : continuation) (fuel : nat) (s : jsstring) (caps : captures)
  : matchResult :=
  match fuel with
  | O => k s caps
  | S fuel' =>
      match k s caps with
      | Some res => Some res
      | None =>
          step s caps
            (fun s' caps' =>
               if (length s' <? length s)%nat
               then lazyLoop step k fuel' s' caps'
               else None)
      end
  end.

(** Backtracking matcher in continuation-passing style, following the
    ECMAScript matching semantics: alternatives are tried left to right
    and repetitions as above.  A successful match yields the input left
    after it and the captures. *)
Fixpoint rmatch (r : regex) (s : jsstring) (caps : captures) (k : continuation)
  : matchResult :=
  match r with
  | Eps => k s caps
  | Char c =>
      match s with
      | x :: s' => if N.eqb x c then k s' caps else None
      | [] => None
      end
  | Class p =>
      match s with
      | x :: s' => if p x then k s' caps else None
      | [] => None
      end
  | Seq r1 r2 => rmatch r1 s caps (fun s' caps' => rmatch r2 s' caps' k)
  | Alt r1 r2 =>
      match rmatch r1 s caps k with
      | Some res => Some res
      | None => rmatch r2 s caps k
      end
  | Star r' => greedyLoop (rmatch r') k (S (length s)) s caps
  | LazyStar r' => lazyLoop (rmatch r') k (S (length s)) s caps
  | Group n r' =>
      rmatch r' s caps
        (fun s' caps' => k s' ((n, firstn (length s - length s') s) :: caps'))
  end.

(** One match attempt at the start of [s]. *)
Definition exec (r : regex) (s : jsstring) : matchResult :=
  rmatch r s [] (fun s' caps => Some (s', caps)).

(** A replacement: a function of the matched text and the captures. *)
Definition replacer := jsstring -> captures -> jsstring.

Inductive piece := Text (s : jsstring) | Ref (n : nat).   (* literal text | $n *)

(** A replacement string such as ['- $1\n']. *)
Definition template (ps : list piece) : replacer :=
  fun _ caps =>
    concat (map (fun p => match p with Text s => s | Ref n => capture n caps end) ps).

(** [s.replace(/r/g, f)]: matches are looked for left to right; after a
    match the search resumes where it ended (one character further when
    the match was empty); unmatched characters are copied. *)
Fixpoint replaceLoop (fuel : nat) (r : regex) (f : replacer) (s : jsstring)
  : jsstring :=
  match fuel with
  | O => s
  | S fuel' =>
      match exec r s with
      | Some (s', caps) =>
          match firstn (length s - length s') s with
          | [] =>
              f [] caps ++ match s with
                           | [] => []
                           | c :: t => c :: replaceLoop fuel' r f t
                           end
          | matched => f matched caps ++ replaceLoop fuel' r f s'
          end
      | None =>
          match s with
          | [] => []
          | c :: t => c :: replaceLoop fuel' r f t
          end
      end
  end.

Definition replaceAll (r : regex) (f : replacer) (s : jsstring) : jsstring :=
  replaceLoop (S (length s)) r f s.

(* ================================================================== *)
(** * The reply formatter *)
(* ================================================================== *)

Definition NL : jsstring := [LF].

(** ['#'.repeat(n)] *)
Definition repeatStr (s : jsstring) (n : nat) : jsstring := concat (repeat s n).

(** [parseInt] of the one digit captured by [([1-6])]. *)
Definition parseIntDigit (s : jsstring) : nat :=
  match s with
  | [c] => N.to_nat (c - 48)
  | _ => O
  end.

(** [<tag>(.*?)</tag>] *)
Definition element (tag : string) : regex :=
  Seq (Lit (js ("<" ++ tag ++ ">")))
      (Seq (Group 1 (LazyStar (Class dot))) (Lit (js ("</" ++ tag ++ ">")))).

Definition re_header : regex :=                  (* /<h([1-6])>(.*?)<\/h[1-6]>/g *)
  Seq (Lit (js "<h")) (Seq (Group 1 (Class digit1to6)) (Seq (Char 62)
  (Seq (Group 2 (LazyStar (Class dot)))
  (Seq (Lit (js "</h")) (Seq (Class digit1to6) (Char 62)))))).

Definition re_codehilite : regex :=
  (* /<div class="codehilite">.*?<pre><span><\/span><code>(.*?)<\/code><\/pre><\/div>/gs *)
  Seq (Lit (jsq "<div class='codehilite'>"))
  (Seq (LazyStar (Class dotAll))
  (Seq (Lit (js "<pre><span></span><code>"))
  (Seq (Group 1 (LazyStar (Class dotAll)))
       (Lit (js "</code></pre></div>"))))).

Definition re_br : regex :=                      (* /<br\s*\/?>/g *)
  Seq (Lit (js "<br")) (Seq (Star (Class isWhiteSpace)) (Seq (Opt (Char 47)) (Char 62))).

Definition re_tag : regex :=                     (* /<[^>]+>/g *)
  Seq (Char 60) (Seq (Plus (Class notGt)) (Char 62)).

Definition re_block : regex :=                   (* /<\/?(p|h[1-6]|div)>/g *)
  Seq (Char 60) (Seq (Opt (Char 47))
  (Seq (Group 1 (Alt (Lit (js "p"))
                (Alt (Seq (Char 104) (Class digit1to6)) (Lit (js "div")))))
       (Char 62))).

Definition re_newlines3 : regex := AtLeast3 (Char LF).        (* /\n{3,}/g *)
Definition re_spaces : regex := Plus (Class isWhiteSpace).    (* /\s+/g *)

Definition htmlToMarkdown (html : jsstring) : jsstring :=
  let s := html in
  (* Headers *)
  let s := replaceAll re_header
             (fun _ caps => repeatStr (js "#") (parseIntDigit (capture 1 caps))
                            ++ js " " ++ capture 2 caps ++ NL ++ NL) s in
  (* Bold and italic *)
  let s := replaceAll (element "strong") (template [Text (js "**"); Ref 1; Text (js "**")]) s in
  let s := replaceAll (element "em") (template [Text (js "*"); Ref 1; Text (js "*")]) s in
  (* Code blocks *)
  let s := replaceAll re_codehilite
             (template [Text (js "```" ++ NL); Ref 1; Text (NL ++ js "```" ++ NL)]) s in
  (* Inline code *)
  let s := replaceAll (element "code") (template [Text (js "`"); Ref 1; Text (js "`")]) s in
  (* Lists *)
  let s := replaceAll (Lit (js "<ol>")) (template []) s in
  let s := replaceAll (Lit (js "</ol>")) (template [Text NL]) s in
  let s := replaceAll (Lit (js "<ul>")) (template []) s in
  let s := replaceAll (Lit (js "</ul>")) (template [Text NL]) s in
  let s := replaceAll (element "li") (template [Text (js "- "); Ref 1; Text NL]) s in
  (* Paragraphs *)
  let s := replaceAll (Lit (js "<p></p>")) (template []) s in
  let s := replaceAll (element "p") (template [Ref 1; Text (NL ++ NL)]) s in
  (* Line breaks *)
  let s := replaceAll re_br (template [Text NL]) s in
  (* Remove all remaining HTML tags and spans *)
  let s := replaceAll re_tag (template []) s in
  (* Decode HTML entities *)
  let s := replaceAll (Lit (js "&lt;")) (template [Text (js "<")]) s in
  let s := replaceAll (Lit (js "&gt;")) (template [Text (js ">")]) s in
  let s := replaceAll (Lit (js "&quot;")) (template [Text [DQUOTE]]) s in
  let s := replaceAll (Lit (js "&#x27;")) (template [Text (js "'")]) s in
  let s := replaceAll (Lit (js "&amp;")) (template [Text (js "&")]) s in
  (* Clean up excessive whitespace *)
  let s := replaceAll re_newlines3 (template [Text (NL ++ NL)]) s in
  trim s.

Definition htmlToPlain (html : jsstring) : jsstring :=
  let s := html in
  (* Replace paragraphs and headers with line breaks *)
  let s := replaceAll re_block (template [Text NL]) s in
  let s := replaceAll re_br (template [Text NL]) s in
  (* Replace list items with dashes *)
  let s := replaceAll (element "li") (template [Text (js "- "); Ref 1; Text NL]) s in
  (* Remove all HTML tags *)
  let s := replaceAll re_tag (template []) s in
  (* Clean up excessive whitespace *)
  let s := replaceAll re_newlines3 (template [Text (NL ++ NL)]) s in
  let s := replaceAll re_spaces (template [Text (js " ")]) s in
  trim s.

(* ================================================================== *)
(** * JavaScript values and errors *)
(* ================================================================== *)

(** The values [JSON.parse] produces, and [undefined]. *)
#[local] Unset Elimination Schemes.
Inductive value : Type :=
| VUndefined
| VNull
| VBool (b : bool)
| VNum (x : float)
| VStr (s : jsstring)
| VArr (elems : list value)
| VObj (props : list (jsstring * value)).
#[local] Set Elimination Schemes.

(** ToBoolean. *)
Definition truthy (v : value) : bool :=
  match v with
  | VUndefined | VNull => false
  | VBool b => b
  | VNum x => negb (PrimFloat.eqb x 0) && PrimFloat.eqb x x    (* not 0, -0 or NaN *)
  | VStr s => match s with [] => false | _ => true end
  | VArr _ | VObj _ => true
  end.

(** ToBoolean of a string that may be [undefined] or [null]. *)
Definition nonEmpty (s : option jsstring) : bool :=
  match s with
  | Some (_ :: _) => true
  | _ => false
  end.

(** The errors of the tool, one constructor per [throw] of the source;
    [Native] is an error raised by the platform (a [TypeError], a
    [SyntaxError], a rejected [fetch]). *)
Inductive exn : Type :=
| NoPrompt
| ModelListNotSet
| TokenNotSet
| CookieNotSet
| InvalidModel (model : option jsstring) (availableModels : list jsstring)
| ExpiredSession
| HttpError (status : N) (statusText : jsstring)
| ParseAssistantFailed
| ParseMessageFailed
| UnexpectedFormat
| NoValidToken
| TokenFileError (msg : jsstring)
| Native (name msg : jsstring).

(** [String(n)] for a natural number. *)
Definition N_to_js (n : N) : jsstring := js (NilEmpty.string_of_uint (N.to_uint n)).

(** [`${model}`] *)
Definition showModel (model : option jsstring) : jsstring :=
  match model with
  | Some m => m
  | None => js "undefined"
  end.

Definition errorName (e : exn) : jsstring :=
  match e with
  | Native name _ => name
  | _ => js "Error"
  end.

Definition message (e : exn) : jsstring :=
  match e with
  | NoPrompt => js "Assistant called with no prompt."
  | ModelListNotSet =>
      js "KAGI_MODEL_LIST environment variable not set. Please provide a comma-separated list of available models (e.g., 'o3-pro,claude-4-sonnet,gemini-2-5-pro')"
  | TokenNotSet =>
      js "KAGI_SESSION_TOKEN environment variable not set. Please set it before running."
  | CookieNotSet =>
      js "KAGI_SEARCH_COOKIE environment variable not set. Please set it to your _kagi_search_ cookie value."
  | InvalidModel model availableModels =>
      js "Invalid model " ++ [DQUOTE] ++ showModel model ++ [DQUOTE]
      ++ js ". Available models: " ++ join (js ", ") availableModels
  | ExpiredSession => js "Invalid or expired session token"
  | HttpError status statusText =>
      js "HTTP " ++ N_to_js status ++ js ": " ++ statusText
  | ParseAssistantFailed => js "Failed to parse assistant response"
  | ParseMessageFailed => js "Failed to parse message JSON response"
  | UnexpectedFormat => js "Assistant response not in expected format"
  | NoValidToken =>
      js "No valid Kagi session token found. Please either:" ++ NL
      ++ js "1. Set KAGI_SESSION_TOKEN environment variable, or" ++ NL
      ++ js "2. Save your token to ~/.kagi_session_token file" ++ NL ++ NL
      ++ js "Get your token from: https://kagi.com/settings?p=api"
  | TokenFileError msg => js "Failed to read token file: " ++ msg
  | Native _ msg => msg
  end.

(** [Error.prototype.toString]. *)
Definition toString (e : exn) : jsstring :=
  match errorName e, message e with
  | [], m => m
  | n, [] => n
  | n, m => n ++ js ": " ++ m
  end.

(** [formatError] of [utils/formatting.js]; everything thrown here is an
    [Error] instance. *)
Definition formatError (error : exn) : jsstring :=
  js "Error: " ++ match message error with
                  | [] => toString error
                  | m => m
                  end.

(** [v.key] for the property names the tool reads ([id], [state],
    [reply]), none of which lives on a prototype: reading from [null] or
    [undefined] throws, a primitive or an array yields [undefined]. *)
Fixpoint lookup (key : jsstring) (props : list (jsstring * value)) : value :=
  match props with
  | [] => VUndefined
  | (k, v) :: props' => if str_eqb k key then v else lookup key props'
  end.

Definition getProp (v : value) (key : jsstring) : exn + value :=
  match v with
  | VUndefined =>
      inl (Native (js "TypeError")
             (js "Cannot read properties of undefined (reading '" ++ key ++ js "')"))
  | VNull =>
      inl (Native (js "TypeError")
             (js "Cannot read properties of null (reading '" ++ key ++ js "')"))
  | VObj props => inr (lookup key props)
  | _ => inr VUndefined
  end.

(** [Array.prototype.includes] on an array of strings. *)
Definition includes (l : list jsstring) (x : option jsstring) : bool :=
  match x with
  | Some m => existsb (str_eqb m) l
  | None => false
  end.

(** [formatResponse]; a reply that is not a string has no [replace]
    method. *)
Definition notAFunction : exn :=
  Native (js "TypeError") (js "html.replace is not a function").

Definition onString (f : jsstring -> jsstring) (html : value) : exn + value :=
  match html with
  | VStr s => inr (VStr (f s))
  | _ => inl notAFunction
  end.

Definition formatResponse (html : value) (format : jsstring) : exn + value :=
  if str_eqb format (js "html") then inr html
  else if str_eqb format (js "markdown") then onString htmlToMarkdown html
  else if str_eqb format (js "plain") then onString htmlToPlain html
  else onString htmlToMarkdown html.             (* Default to markdown *)

(* ================================================================== *)
(** * The process and its surroundings *)
(* ================================================================== *)

(** [process.env], as far as the tool reads it. *)
Record Env := mkEnv {
  KAGI_DEFAULT_MODEL : option jsstring;
  KAGI_MODEL_LIST : option jsstring;
  KAGI_SEARCH_COOKIE : option jsstring;
  KAGI_SESSION_TOKEN : option jsstring;
  KAGI_SUMMARIZER_ENGINE : option jsstring }.

(** What [readFileSync] finds at [~/.kagi_session_token]. *)
Inductive FileRead :=
| FileContent (content : jsstring)
| ENOENT
| ReadFailure (msg : jsstring).

(** The wire payload built by [buildRequestData]. *)
Record Focus := mkFocus {
  thread_id : value;                 (* always a key of the object; may be null *)
  branch_id : jsstring;
  focus_prompt : jsstring;
  message_id : option jsstring }.    (* [None]: the key is absent *)

Record Profile := mkProfile {
  profile_id : value;
  personalizations : bool;
  profile_internet_access : bool;
  profile_model : option jsstring;
  lens_id : value }.

Record ThreadFlags := mkThreadFlags {
  tag_ids : list value;
  saved : bool;
  shared : bool }.

Record RequestData := mkRequestData {
  focus : Focus;
  profile : Profile;
  threads : list ThreadFlags }.

(** The argument of [fetch]; [body] stands for [JSON.stringify(requestData)]. *)
Record Request := mkRequest {
  url : jsstring;
  method : jsstring;
  headers : list (jsstring * jsstring);
  body : RequestData }.

(** What [fetch] and [response.text()] come to. *)
Inductive FetchOutcome :=
| FetchRejected (e : exn)
| FetchResponse (status : N) (statusText : jsstring) (text : exn + jsstring).

(** The collaborators outside the repository: the environment, the token
    file, the network, and the built-ins [JSON.parse] and [uuidv4] (the
    n-th call of the generator yields [uuidv4 n]). *)
Record World := mkWorld {
  env : Env;
  tokenFile : FileRead;
  fetch : Request -> FetchOutcome;
  JSON_parse : jsstring -> exn + value;
  uuidv4 : nat -> jsstring }.

(** The mutable state of the process: the module variable [threadId], and
    the traces of the effects (identifiers drawn, requests sent, warnings
    written to the console). *)
Record Store := mkStore {
  threadId : value;
  uuidCalls : nat;
  requests : list Request;
  warnings : list exn }.

Definition initialStore : Store :=
  {| threadId := VNull; uuidCalls := 0; requests := []; warnings := [] |}.

(** ** A state and exception monad *)

Definition M (A : Type) : Type := Store -> (exn + A) * Store.

Definition ret {A} (a : A) : M A := fun st => (inr a, st).
Definition throw {A} (e : exn) : M A := fun st => (inl e, st).
Definition bind {A B} (m : M A) (f : A -> M B) : M B :=
  fun st => match m st with
            | (inl e, st') => (inl e, st')
            | (inr a, st') => f a st'
            end.
Definition tryCatch {A} (m : M A) (handler : exn -> M A) : M A :=
  fun st => match m st with
            | (inl e, st') => handler e st'
            | (inr a, st') => (inr a, st')
            end.
Definition lift {A} (r : exn + A) : M A := fun st => (r, st).
Definition get : M Store := fun st => (inr st, st).
Definition modify (f : Store -> Store) : M unit := fun st => (inr tt, f st).
Definition when (b : bool) (m : M unit) : M unit := if b then m else ret tt.

Declare Scope js_scope.
Delimit Scope js_scope with js.
Notation "x <- m ;; k" := (bind m (fun x => k))
  (at level 61, m at next level, right associativity) : js_scope.
Notation "m ;; k" := (bind m (fun _ => k))
  (at level 61, right associativity) : js_scope.
Local Open Scope js_scope.

Definition setThreadId (v : value) : M unit :=
  modify (fun st => {| threadId := v; uuidCalls := uuidCalls st;
                       requests := requests st; warnings := warnings st |}).

Definition console_warn (e : exn) : M unit :=
  modify (fun st => {| threadId := threadId st; uuidCalls := uuidCalls st;
                       requests := requests st; warnings := warnings st ++ [e] |}).

(** One call of the generator. *)
Definition draw_uuid (w : World) : M jsstring :=
  fun st => (inr (uuidv4 w (uuidCalls st)),
             {| threadId := threadId st; uuidCalls := S (uuidCalls st);
                requests := requests st; warnings := warnings st |}).

(** [await fetch(...)] followed by the checks on the response and
    [await response.text()] (lines 285-299). *)
Definition send (w : World) (req : Request) : M jsstring :=
  modify (fun st => {| threadId := threadId st; uuidCalls := uuidCalls st;
                       requests := requests st ++ [req]; warnings := warnings st |}) ;;
  match fetch w req with
  | FetchRejected e => throw e
  | FetchResponse status statusText text =>
      if negb ((200 <=? status) && (status <=? 299))%N then
        if ((status =? 401) || (status =? 403))%N then throw ExpiredSession
        else throw (HttpError status statusText)
      else lift text
  end.

(* ================================================================== *)
(** * Credentials and models *)
(* ================================================================== *)

Definition isValidTokenFormat (token : jsstring) : bool :=
  (0 <? length (trim token))%nat.

Definition readTokenFromFile (w : World) : exn + option jsstring :=
  match tokenFile w with
  | FileContent content =>
      match trim content with
      | [] => inr None                       (* token || null *)
      | token => inr (Some token)
      end
  | ENOENT => inr None
  | ReadFailure msg => inl (TokenFileError msg)
  end.

Definition resolveToken (w : World) : exn + jsstring :=
  let fromFile :=
    match readTokenFromFile w with
    | inl e => inl e
    | inr fileToken =>
        if nonEmpty fileToken && isValidTokenFormat (match fileToken with Some t => t | None => [] end)
        then inr (match fileToken with Some t => t | None => [] end)
        else inl NoValidToken
    end in
  match KAGI_SESSION_TOKEN (env w) with
  | Some envToken =>
      (* First try environment variable *)
      if nonEmpty (Some envToken) && isValidTokenFormat envToken
      then inr (trim envToken)
      else fromFile
  | None => fromFile
  end.

(** [getEnvironmentConfig]: the token and the summarizer engine. *)
Definition getEnvironmentConfig (w : World) : exn + (jsstring * jsstring) :=
  match resolveToken w with
  | inl e => inl e
  | inr token =>
      let engine := match KAGI_SUMMARIZER_ENGINE (env w) with
                    | Some (c :: t) => c :: t
                    | _ => js "default"
                    end in
      inr (token, engine)
  end.

Definition COMMA : N := 44.

Definition getAvailableModels (w : World) : exn + list jsstring :=
  match KAGI_MODEL_LIST (env w) with
  | Some (c :: t) =>
      inr (filter (fun m => (0 <? length m)%nat) (map trim (splitOn COMMA (c :: t))))
  | _ => inl ModelListNotSet
  end.

(** The result is [undefined] ([None]) when the list has no entry. *)
Definition getDefaultModel (w : World) : exn + option jsstring :=
  match KAGI_DEFAULT_MODEL (env w) with
  | Some (c :: t) => inr (Some (c :: t))
  | _ =>
      match getAvailableModels w with
      | inl e => inl e
      | inr availableModels => inr (hd_error availableModels)
      end
  end.

(* ================================================================== *)
(** * The request builder *)
(* ================================================================== *)

Definition BRANCH_SENTINEL : jsstring := js "00000000-0000-4000-0000-000000000000".

Definition buildRequestData (w : World) (prompt : jsstring)
           (model : option jsstring) (internetAccess : bool) : M RequestData :=
  st <- get ;;
  let focus0 := {| thread_id := threadId st;
                   branch_id := BRANCH_SENTINEL;
                   focus_prompt := prompt;
                   message_id := None |} in
  (* If continuing a conversation, generate a message_id *)
  focus1 <- (if truthy (threadId st)
             then u <- draw_uuid w ;;
                  ret {| thread_id := thread_id focus0; branch_id := branch_id focus0;
                         focus_prompt := focus_prompt focus0; message_id := Some u |}
             else ret focus0) ;;
  ret {| focus := focus1;
         profile := {| profile_id := VNull;
                       personalizations := true;
                       profile_internet_access := internetAccess;
                       profile_model := model;
                       lens_id := VNull |};
         threads := [ {| tag_ids := []; saved := false; shared := false |} ] |}.

(* ================================================================== *)
(** * The assistant tool: [kagiAssistant] *)
(* ================================================================== *)

(** The destructured argument object; [None] is a property left out, for
    which the parameter's default initialiser runs. *)
Record Args := mkArgs {
  prompt : jsstring;
  new_conversation : option bool;
  model : option jsstring;
  internet_access : option bool;
  format : option jsstring }.

(** What the promise returned by the [async] function settles to:
    fulfilled with [{ content: [{ type: "text", text }] }], or rejected. *)
Inductive Outcome :=
| Resolved (text : value)
| Rejected (e : exn).

Definition requestHeaders (token kagiSearchCookie : jsstring)
  : list (jsstring * jsstring) :=
  [ (js "accept", js "application/vnd.kagi.stream");
    (js "accept-language", js "zh-CN,zh;q=0.9,en-US;q=0.8,en;q=0.7");
    (js "content-type", js "application/json");
    (js "origin", js "https://kagi.com");
    (js "priority", js "u=1, i");
    (js "referer", js "https://kagi.com/assistant");
    (js "rtt", js "300");
    (js "sec-ch-ua",
     jsq "'Chromium';v='140', 'Not=A?Brand';v='24', 'Google Chrome';v='140'");
    (js "sec-ch-ua-mobile", js "?0");
    (js "sec-ch-ua-platform", jsq "'Windows'");
    (js "sec-fetch-dest", js "empty");
    (js "sec-fetch-mode", js "cors");
    (js "sec-fetch-site", js "same-origin");
    (js "user-agent",
     js "Mozilla/5.0 (Windows NT 10.0; Win64; x64) AppleWebKit/537.36 (KHTML, like Gecko) Chrome/140.0.0.0 Safari/537.36");
    (js "cookie",
     js "kagi_session=" ++ token ++ js "; _kagi_search_=" ++ kagiSearchCookie) ].

(** Lines 227-289: the checks, the session reset and the request. *)
Definition prepare (w : World) (prompt : jsstring) (new_conversation : bool)
           (model : option jsstring) (internet_access : bool) : M Request :=
  when (negb (nonEmpty (Some prompt))) (throw NoPrompt) ;;
  config <- lift (getEnvironmentConfig w) ;;
  let token := fst config in
  let kagiSearchCookie := KAGI_SEARCH_COOKIE (env w) in
  availableModels <- lift (getAvailableModels w) ;;
  when (negb (nonEmpty (Some token))) (throw TokenNotSet) ;;
  when (negb (nonEmpty kagiSearchCookie)) (throw CookieNotSet) ;;
  (* Validate model *)
  when (negb (includes availableModels model))
       (throw (InvalidModel model availableModels)) ;;
  (* Reset thread_id if starting new conversation *)
  when new_conversation (setThreadId VNull) ;;
  (* Build request data *)
  requestData <- buildRequestData w prompt model internet_access ;;
  ret {| url := js "https://kagi.com/assistant/prompt";
         method := js "POST";
         headers := requestHeaders token
                      (match kagiSearchCookie with Some c => c | None => [] end);
         body := requestData |}.

(** [v === "done"] and the like. *)
Definition isString (v : value) (lit : jsstring) : bool :=
  match v with
  | VStr s => str_eqb s lit
  | _ => false
  end.

(** Lines 301-339: the thread document, the message document, the
    formatted reply. *)
Definition receive (w : World) (responseText : jsstring) (format : jsstring)
  : M value :=
  (* Extract thread_id for subsequent requests *)
  let threadJson := extractJson responseText THREAD_MARKER in
  (if nonEmpty threadJson then
     tryCatch
       (threadData <- lift (JSON_parse w (match threadJson with Some t => t | None => [] end)) ;;
        id <- lift (getProp threadData (js "id")) ;;
        when (truthy id) (setThreadId id))
       (fun error => console_warn error)
   else ret tt) ;;
  (* Extract assistant reply *)
  let messageJson := extractJson responseText MESSAGE_MARKER in
  when (negb (nonEmpty messageJson)) (throw ParseAssistantFailed) ;;
  messageData <- tryCatch
                   (lift (JSON_parse w (match messageJson with Some t => t | None => [] end)))
                   (fun _ => throw ParseMessageFailed) ;;
  state <- lift (getProp messageData (js "state")) ;;
  reply <- (if isString state (js "done")
            then lift (getProp messageData (js "reply"))
            else ret VUndefined) ;;
  if isString state (js "done") && truthy reply then
    formattedReply <- lift (formatResponse reply format) ;;
    ret formattedReply
  else throw UnexpectedFormat.

(** The [try] block of [kagiAssistant]. *)
Definition exchange (w : World) (prompt : jsstring) (new_conversation : bool)
           (model : option jsstring) (internet_access : bool) (format : jsstring)
  : M value :=
  request <- prepare w prompt new_conversation model internet_access ;;
  responseText <- send w request ;;
  receive w responseText format.

Definition orDefault {A} (x : option A) (d : A) : A :=
  match x with
  | Some a => a
  | None => d
  end.

(** The parameter [model = getDefaultModel()]: the initialiser runs when
    the property is left out. *)
Definition modelParameter (args : Args) (w : World) : exn + option jsstring :=
  match model args with
  | Some m => inr (Some m)
  | None => getDefaultModel w
  end.

Definition kagiAssistant (args : Args) (w : World) (st : Store) : Outcome * Store :=
  (* the default initialisers of the parameters run first, outside the
     [try] block; the one of [model] is the one that can throw *)
  let new_conversation := orDefault (new_conversation args) true in
  match modelParameter args w with
  | inl e => (Rejected e, st)
  | inr model =>
      let internet_access := orDefault (internet_access args) true in
      let format := orDefault (format args) (js "markdown") in
      match tryCatch
              (exchange w (prompt args) new_conversation model internet_access format)
              (fun error => ret (VStr (formatError error))) st with
      | (inr text, st') => (Resolved text, st')
      | (inl e, st') => (Rejected e, st')
      end
  end.

(* ================================================================== *)
(** * Sessions *)
(* ================================================================== *)

(** [threadId = null]. *)
Definition resetSession (st : Store) : Store :=
  {| threadId := VNull; uuidCalls := uuidCalls st;
     requests := requests st; warnings := warnings st |}.

(** The stores the process goes through: the initial one, the one left
    by a call of the tool, whatever its arguments and surroundings, and,
    inside a call, the one after the reset of line 256. *)
Inductive reachable : Store -> Prop :=
| reach_initial : reachable initialStore
| reach_call (args : Args) (w : World) (st : Store) :
    reachable st -> reachable (snd (kagiAssistant args w st))
| reach_reset (st : Store) :
    reachable st -> reachable (resetSession st).

(** The session holds no identifier ([null]) or a truthy value. *)
Definition sessionInvariant (st : Store) : Prop :=
  threadId st = VNull \/ truthy (threadId st) = true.

(** The request of an exchange starts a new thread. *)
Definition startsThread (req : Request) : Prop :=
  thread_id (focus (body req)) = VNull /\ message_id (focus (body req)) = None.

(** One more identifier drawn from the generator. *)
Definition drawn (st : Store) : Store :=
  {| threadId := threadId st; uuidCalls := S (uuidCalls st);
     requests := requests st; warnings := warnings st |}.

(** The request of [kagiAssistant] around a payload. *)
Definition requestOf (w : World) (token : jsstring) (data : RequestData) : Request :=
  {| url := js "https://kagi.com/assistant/prompt";
     method := js "POST";
     headers := requestHeaders token
                  (match KAGI_SEARCH_COOKIE (env w) with Some c => c | None => [] end);
     body := data |}.

(** The requests one call of the tool sends: at most one, once every
    check has passed. *)
Definition sentBy (args : Args) (w : World) (st : Store) : list Request :=
  match modelParameter args w with
  | inl _ => []
  | inr m =>
      match prepare w (prompt args) (orDefault (new_conversation args) true) m
                    (orDefault (internet_access args) true) st with
      | (inr req, _) => [req]
      | (inl _, _) => []
      end
  end.

(** The payload of [buildRequestData], by its variable parts. *)
Definition payload (th : value) (prompt : jsstring) (model : option jsstring)
           (internetAccess : bool) (mid : option jsstring) : RequestData :=
  {| focus := {| thread_id := th; branch_id := BRANCH_SENTINEL;
                 focus_prompt := prompt; message_id := mid |};
     profile := {| profile_id := VNull; personalizations := true;
                   profile_internet_access := internetAccess;
                   profile_model := model; lens_id := VNull |};
     threads := [ {| tag_ids := []; saved := false; shared := false |} ] |}.

(** A string is on one line when its only white space is the space
    character. *)
Definition singleLine (s : jsstring) : Prop :=
  Forall (fun c => isWhiteSpace c = true -> c = 32%N) s.

(* ================================================================== *)
(** * A concrete world for the examples *)
(* ================================================================== *)

Module Demo.

Definition environment : Env :=
  {| KAGI_DEFAULT_MODEL := None;
     KAGI_MODEL_LIST := Some (js "a,b");
     KAGI_SEARCH_COOKIE := Some (js "search-cookie");
     KAGI_SESSION_TOKEN := Some (js "session-token");
     KAGI_SUMMARIZER_ENGINE := None |}.

Definition threadDoc : jsstring := jsq "{'id':'abc'}".
Definition messageDoc : jsstring := jsq "{'state':'done','reply':'<p>Hi</p>'}".
Definition emptyReplyDoc : jsstring := jsq "{'state':'done','reply':''}".

(** [JSON.parse] on the documents of the examples; any other text is
    taken as malformed. *)
Definition parse (text : jsstring) : exn + value :=
  if str_eqb text threadDoc then
    inr (VObj [(js "id", VStr (js "abc"))])
  else if str_eqb text messageDoc then
    inr (VObj [(js "state", VStr (js "done")); (js "reply", VStr (js "<p>Hi</p>"))])
  else if str_eqb text emptyReplyDoc then
    inr (VObj [(js "state", VStr (js "done")); (js "reply", VStr [])])
  else inl (Native (js "SyntaxError") (js "Unexpected token in JSON")).

Definition responseText : jsstring :=
  js "noise thread.json: " ++ threadDoc ++ js " more noise new_message.json: "
  ++ messageDoc.

Definition emptyReplyText : jsstring := js "new_message.json: " ++ emptyReplyDoc.

Definition world (e : Env) (body : jsstring) : World :=
  {| env := e;
     tokenFile := ENOENT;
     fetch := fun _ => FetchResponse 200 (js "OK") (inr body);
     JSON_parse := parse;
     uuidv4 := fun n => js "uuid-" ++ N_to_js (N.of_nat n) |}.

Definition args (p : string) (fresh : bool) (m : string) : Args :=
  {| prompt := js p; new_conversation := Some fresh; model := Some (js m);
     internet_access := None; format := None |}.

(** An argument object with the prompt alone. *)
Definition promptOnly (p : string) : Args :=
  {| prompt := js p; new_conversation := None; model := None;
     internet_access := None; format := None |}.

(** The model list is not set. *)
Definition noModelList : Env :=
  {| KAGI_DEFAULT_MODEL := None;
     KAGI_MODEL_LIST := None;
     KAGI_SEARCH_COOKIE := Some (js "search-cookie");
     KAGI_SESSION_TOKEN := Some (js "session-token");
     KAGI_SUMMARIZER_ENGINE := None |}.

(** The model list is set, to a value without any entry. *)
Definition blankModelList : Env :=
  {| KAGI_DEFAULT_MODEL := None;
     KAGI_MODEL_LIST := Some (js " , ");
     KAGI_SEARCH_COOKIE := Some (js "search-cookie");
     KAGI_SESSION_TOKEN := Some (js "session-token");
     KAGI_SUMMARIZER_ENGINE := None |}.

(** The store after a first exchange that yielded thread [abc]. *)
Definition continued : Store :=
  snd (kagiAssistant (args "hello" true "a") (world environment responseText)
                     initialStore).

(** The request of a second exchange, continuing thread [abc]. *)
Definition again : Request :=
  requestOf (world environment responseText) (js "session-token")
            (payload (VStr (js "abc")) (js "again") (Some (js "a")) true
                     (Some (js "uuid-0"))).

End Demo.

(** A matcher step that depends on its continuation only through the
    continuation's results. *)
Definition respectful
           (step : jsstring -> captures -> continuation -> matchResult) : Prop :=
  forall s caps k1 k2,
    (forall s' caps', k1 s' caps' = k2 s' caps') ->
    step s caps k1 = step s caps k2.

(** The marker does not occur in [marker ++ post] after position 0:
    a boolean check of it. *)
Definition noLaterOccurrence (marker post : jsstring) : bool :=
  forallb (fun k => negb (occursAt (marker ++ post) marker k)) (seq 1 (length post)).

(* ================================================================== *)
(** * Notions used to state the further properties *)
(* ================================================================== *)

(** The number of occurrences of a character. *)
Definition occurrences (c : N) (s : jsstring) : nat :=
  length (filter (N.eqb c) s).

(** The braces opened and not closed in [s]: what the depth counter of
    the scan has added up after reading [s]. *)
Definition depth (s : jsstring) : Z :=
  (Z.of_nat (occurrences LBRACE s) - Z.of_nat (occurrences RBRACE s))%Z.

(** [s] is one block of balanced braces: the depth is back to zero at
    its end, and nowhere before. *)
Definition balancedBlock (s : jsstring) : Prop :=
  depth s = 0%Z /\ forall k, 0 < k < length s -> (0 < depth (firstn k s))%Z.

Definition balancedBlockb (s : jsstring) : bool :=
  (depth s =? 0)%Z
  && forallb (fun k => (0 <? depth (firstn k s))%Z) (seq 1 (length s - 1)).

(** The marker occurs nowhere in the text: a boolean check of it. *)
Definition noOccurrence (text marker : jsstring) : bool :=
  forallb (fun k => negb (occursAt text marker k)) (seq 0 (S (length text))).

(** All the characters are white space. *)
Definition blank (s : jsstring) : Prop :=
  Forall (fun c => isWhiteSpace c = true) s.

(** No two white-space characters stand side by side. *)
Fixpoint noAdjacentSpace (s : jsstring) : Prop :=
  match s with
  | c :: t =>
      match t with
      | d :: _ => (isWhiteSpace c = true -> isWhiteSpace d = false)
      | [] => True
      end /\ noAdjacentSpace t
  | [] => True
  end.

(** No white space at either end. *)
Definition trimmed (s : jsstring) : Prop :=
  (forall c t, s = c :: t -> isWhiteSpace c = false)
  /\ (forall t c, s = t ++ [c] -> isWhiteSpace c = false).

Fixpoint dropWhile (p : N -> bool) (s : jsstring) : jsstring :=
  match s with
  | c :: s' => if p c then dropWhile p s' else s
  | [] => []
  end.

(** The number of line breaks [s] starts with. *)
Fixpoint runLF (s : jsstring) : nat :=
  match s with
  | c :: s' => if N.eqb c LF then S (runLF s') else 0
  | [] => 0
  end.

Definition isLF (c : N) : bool := N.eqb c LF.

(** Nowhere in [s] do three line breaks follow one another. *)
Fixpoint noBlankRun (s : jsstring) : Prop :=
  match s with
  | c :: t => runLF (c :: t) <= 2 /\ noBlankRun t
  | [] => True
  end.

(** The character a pattern has to start with, when there is one. *)
Fixpoint firstChar (r : regex) : option N :=
  match r with
  | Char c => Some c
  | Seq r1 _ => firstChar r1
  | Group _ r' => firstChar r'
  | _ => None
  end.

Definition LT : N := 60.     (* the character < *)
Definition AMP : N := 38.    (* the character & *)

(** The [catch] block of [kagiAssistant]: what a result or an error of
    the [try] block settles the promise to. *)
Definition settle (r : exn + value) : Outcome :=
  match r with
  | inr text => Resolved text
  | inl error => Resolved (VStr (formatError error))
  end.

(** The store after a request has been sent. *)
Definition logged (req : Request) (st : Store) : Store :=
  {| threadId := threadId st; uuidCalls := uuidCalls st;
     requests := requests st ++ [req]; warnings := warnings st |}.

(** The store after a warning has been written. *)
Definition warned (e : exn) (st : Store) : Store :=
  {| threadId := threadId st; uuidCalls := uuidCalls st;
     requests := requests st; warnings := warnings st ++ [e] |}.

(** The store after [threadId = id]. *)
Definition advanced (id : value) (st : Store) : Store :=
  {| threadId := id; uuidCalls := uuidCalls st;
     requests := requests st; warnings := warnings st |}.

(** Lines 301-312 of [kagiAssistant] on their own: what the thread
    document of a response does to the store. *)
Definition threadUpdate (w : World) (responseText : jsstring) (st : Store) : Store :=
  let threadJson := extractJson responseText THREAD_MARKER in
  if nonEmpty threadJson then
    match JSON_parse w (match threadJson with Some t => t | None => [] end) with
    | inl error => warned error st
    | inr threadData =>
        match getProp threadData (js "id") with
        | inl error => warned error st
        | inr id => if truthy id then advanced id st else st
        end
    end
  else st.

(** Lines 314-339 of [kagiAssistant] on their own: what the message
    document of a response comes to. *)
Definition replyOf (w : World) (responseText format : jsstring) : exn + value :=
  let messageJson := extractJson responseText MESSAGE_MARKER in
  if negb (nonEmpty messageJson) then inl ParseAssistantFailed
  else
    match JSON_parse w (match messageJson with Some t => t | None => [] end) with
    | inl _ => inl ParseMessageFailed
    | inr messageData =>
        match getProp messageData (js "state") with
        | inl error => inl error
        | inr state =>
            if isString state (js "done") then
              match getProp messageData (js "reply") with
              | inl error => inl error
              | inr reply =>
                  if truthy reply then formatResponse reply format
                  else inl UnexpectedFormat
              end
            else inl UnexpectedFormat
        end
    end.

(** The call gets as far as a response: the parameters are bound, the
    checks pass, the request is sent and answered with a body, the store
    then being [st2]. *)
Definition responded (args : Args) (w : World) (st : Store)
           (responseText : jsstring) (st2 : Store) : Prop :=
  exists m req st1,
    modelParameter args w = inr m
    /\ prepare w (prompt args) (orDefault (new_conversation args) true) m
               (orDefault (internet_access args) true) st = (inr req, st1)
    /\ send w req st1 = (inr responseText, st2).

(* ================================================================== *)
(** * The summarizer tool: [kagiSummarizer] *)
(* ================================================================== *)

Module Summarizer.

(** The destructured argument object of [kagiSummarizer]. *)
Record Args := mkArgs {
  url : jsstring;
  summary_type : option jsstring;
  target_language : option jsstring }.

(** The options handed to [summarize]. *)
Record Options := mkOptions {
  type : jsstring;
  language : jsstring;
  isUrl : bool }.

(** What the tool imports from the [kagi-ken] package, and the built-in
    [JSON.stringify(result, null, 2)]. *)
Record Services := mkServices {
  summarize : jsstring -> jsstring -> Options -> exn + value;
  SUPPORTED_LANGUAGES : option (list jsstring);
  JSON_stringify : value -> value }.

(** One run of the tool: what the promise settles to, the lines written
    with [console.warn], and the calls of [summarize]. *)
Record Run := mkRun {
  outcome : Outcome;
  console : list jsstring;
  calls : list (jsstring * jsstring * Options) }.

(** [new Error(msg)] *)
Definition Error (msg : jsstring) : exn := Native (js "Error") msg.

(** [v.key] where [v] is known to be truthy. *)
Definition prop (v : value) (key : jsstring) : value :=
  match getProp v key with
  | inr x => x
  | inl _ => VUndefined
  end.

(** Lines 80-93: the text taken from what [summarize] returned. *)
Definition summaryText (sv : Services) (result : value) : value :=
  match result with
  | VStr _ => result                                  (* typeof result === "string" *)
  | _ =>
      if truthy result && truthy (prop result (js "summary"))
      then prop result (js "summary")
      else if truthy result && truthy (prop result (js "data"))
              && truthy (prop (prop result (js "data")) (js "output"))
      then prop (prop result (js "data")) (js "output")
      else if truthy result && truthy (prop result (js "output"))
      then prop result (js "output")
      else JSON_stringify sv result
  end.

Definition languageWarning (language : jsstring) (supported : list jsstring)
  : jsstring :=
  js "Warning: Language '" ++ language
  ++ js "' may not be supported. Supported languages: " ++ join (js ", ") supported.

Definition engineNote (engine : jsstring) : jsstring :=
  js "Note: Engine selection (" ++ engine
  ++ js ") from KAGI_SUMMARIZER_ENGINE may not be supported by kagi-ken. Using default behavior.".

(** The [try] block: its result or error, with the console lines and
    the calls made on the way. *)
Definition attempt (args : Args) (w : World) (sv : Services)
  : (exn + value) * list jsstring * list (jsstring * jsstring * Options) :=
  let summary_type := orDefault (summary_type args) (js "summary") in
  if negb (nonEmpty (Some (url args))) then
    (inl (Error (js "Summarizer called with no URL.")), [], [])
  else
    match getEnvironmentConfig w with
    | inl e => (inl e, [], [])
    | inr (token, engine) =>
        (* Validate summary type *)
        if negb (existsb (str_eqb summary_type) [js "summary"; js "takeaway"]) then
          (inl (Error (js "Invalid summary_type: " ++ summary_type
                       ++ js ". Must be 'summary' or 'takeaway'.")), [], [])
        else
          (* Set default language if not provided *)
          let language := if nonEmpty (target_language args)
                          then orDefault (target_language args) []
                          else js "EN" in
          (* Validate language if provided *)
          let console1 :=
            match SUPPORTED_LANGUAGES sv with
            | Some supported =>
                if nonEmpty (target_language args)
                   && negb (existsb (str_eqb language) supported)
                then [languageWarning language supported]
                else []
            | None => []
            end in
          (* Note about engine compatibility *)
          let console2 :=
            if nonEmpty (Some engine) && negb (str_eqb engine (js "default"))
            then console1 ++ [engineNote engine]
            else console1 in
          (* Prepare options for kagi-ken *)
          let options := {| type := summary_type; language := language;
                            isUrl := true |} in
          (* Call kagi-ken summarize function *)
          match summarize sv (url args) token options with
          | inl e => (inl e, console2, [(url args, token, options)])
          | inr result =>
              (inr (summaryText sv result), console2, [(url args, token, options)])
          end
    end.

Definition kagiSummarizer (args : Args) (w : World) (sv : Services) : Run :=
  match attempt args w sv with
  | (inr text, console, calls) =>
      {| outcome := Resolved text; console := console; calls := calls |}
  | (inl error, console, calls) =>
      {| outcome := Resolved (VStr (formatError error));
         console := console; calls := calls |}
  end.

(** The same environment but for the engine setting. *)
Definition withEngine (engine : option jsstring) (w : World) : World :=
  {| env := {| KAGI_DEFAULT_MODEL := KAGI_DEFAULT_MODEL (env w);
               KAGI_MODEL_LIST := KAGI_MODEL_LIST (env w);
               KAGI_SEARCH_COOKIE := KAGI_SEARCH_COOKIE (env w);
               KAGI_SESSION_TOKEN := KAGI_SESSION_TOKEN (env w);
               KAGI_SUMMARIZER_ENGINE := engine |};
     tokenFile := tokenFile w;
     fetch := fetch w;
     JSON_parse := JSON_parse w;
     uuidv4 := uuidv4 w |}.

(** The same services but for the list of supported languages. *)
Definition withLanguages (supported : option (list jsstring)) (sv : Services)
  : Services :=
  {| summarize := summarize sv;
     SUPPORTED_LANGUAGES := supported;
     JSON_stringify := JSON_stringify sv |}.

(** A service for the examples: it answers with an object whose
    [summary] is empty and whose [data.output] holds the text. *)
Definition demo : Services :=
  {| summarize := fun _ _ _ =>
       inr (VObj [(js "summary", VStr []);
                  (js "data", VObj [(js "output", VStr (js "In short."))]);
                  (js "output", VStr (js "ignored"))]);
     SUPPORTED_LANGUAGES := Some [js "EN"; js "DE"];
     JSON_stringify := fun _ => VStr (js "{}") |}.

End Summarizer.

(* ================================================================== *)
(** * Loading the module: [assistantInputSchema] *)
(* ================================================================== *)

(** What the top-level declaration of [assistantInputSchema] computes
    from the environment when the module is loaded: the default of the
    [model] field and the text of its description.  The other fields are
    constants. *)
Record InputSchema := mkInputSchema {
  model_default : option jsstring;
  model_description : jsstring }.

Definition assistantInputSchema (w : World) : exn + InputSchema :=
  match getDefaultModel w with                 (* .default(getDefaultModel()) *)
  | inl e => inl e
  | inr d =>
      match getAvailableModels w with          (* ${getAvailableModels().join(", ")} *)
      | inl e => inl e
      | inr availableModels =>
          inr {| model_default := d;
                 model_description :=
                   js "AI model to use for the conversation. Available models: "
                   ++ join (js ", ") availableModels |}
      end
  end.

(* ================================================================== *)
(** * Properties of the string primitives *)
(* ================================================================== *)

Lemma startsWith_app (pat rest : jsstring) : startsWith (pat ++ rest) pat = true.
Proof.
  induction pat as [|p pat IH]; simpl; [reflexivity|].
  now rewrite N.eqb_refl, IH.
Qed.

Lemma startsWith_length (s pat : jsstring) :
  startsWith s pat = true -> length pat <= length s.
Proof.
  revert s; induction pat as [|p pat IH]; intros [|c s] H; simpl in *;
    try lia; try discriminate.
  apply andb_true_iff in H as [_ H]. apply IH in H. lia.
Qed.

Lemma skipn_past_prefix (pre rest : jsstring) (q : nat) :
  length pre <= q -> skipn q (pre ++ rest) = skipn (q - length pre) rest.
Proof.
  intros H. rewrite skipn_app.
  rewrite (skipn_all2 pre) by lia. reflexivity.
Qed.

(** The downward search returns the greatest occurrence not above its
    starting point. *)
Lemma lastIndexOfFrom_found (text pat : jsstring) (k p : nat) :
  p <= k ->
  occursAt text pat p = true ->
  (forall q, p < q <= k -> occursAt text pat q = false) ->
  lastIndexOfFrom text pat k = Some p.
Proof.
  induction k as [|k IH]; intros Hle Hp Hlater.
  - assert (p = 0) by lia; subst. simpl. now rewrite Hp.
  - simpl. destruct (Nat.eq_dec p (S k)) as [->|Hne].
    + now rewrite Hp.
    + rewrite (Hlater (S k)) by lia.
      apply IH; [lia | assumption | intros q Hq; apply Hlater; lia].
Qed.

Lemma lastIndexOfFrom_sound (text pat : jsstring) (k p : nat) :
  lastIndexOfFrom text pat k = Some p ->
  p <= k /\ occursAt text pat p = true /\
  forall q, p < q <= k -> occursAt text pat q = false.
Proof.
  induction k as [|k IH]; simpl.
  - destruct (occursAt text pat 0) eqn:E; [|discriminate].
    intros [= <-]. repeat split; auto. intros q Hq; lia.
  - destruct (occursAt text pat (S k)) eqn:E.
    + intros [= <-]. repeat split; auto. intros q Hq; lia.
    + intros H. apply IH in H as (Hle & Hp & Hlater).
      repeat split; auto. intros q Hq.
      destruct (Nat.eq_dec q (S k)) as [->|Hne]; [assumption|].
      apply Hlater; lia.
Qed.

Lemma lastIndexOfFrom_none (text pat : jsstring) (k : nat) :
  lastIndexOfFrom text pat k = None ->
  forall q, q <= k -> occursAt text pat q = false.
Proof.
  induction k as [|k IH]; simpl.
  - destruct (occursAt text pat 0) eqn:E; [discriminate|].
    intros _ q Hq. now replace q with 0 by lia.
  - destruct (occursAt text pat (S k)) eqn:E; [discriminate|].
    intros H q Hq. destruct (Nat.eq_dec q (S k)) as [->|Hne]; [assumption|].
    apply IH; [assumption | lia].
Qed.

(** [lastIndexOf] is the index of the last occurrence: the marker occurs
    there and at no later position that leaves room for it. *)
Lemma lastIndexOf_spec (text pat : jsstring) (p : nat) :
  lastIndexOf text pat = Some p <->
  occursAt text pat p = true /\ p + length pat <= length text /\
  forall q, p < q -> q + length pat <= length text -> occursAt text pat q = false.
Proof.
  unfold lastIndexOf. split.
  - destruct (length pat <=? length text) eqn:E; [|discriminate].
    apply Nat.leb_le in E. intros H.
    apply lastIndexOfFrom_sound in H as (Hle & Hp & Hlater).
    repeat split; [assumption | lia |].
    intros q Hq Hroom. apply Hlater. lia.
  - intros (Hp & Hroom & Hlater).
    assert (E : length pat <= length text) by lia.
    apply Nat.leb_le in E. rewrite E.
    apply lastIndexOfFrom_found; [lia | assumption |].
    intros q Hq. apply Hlater; lia.
Qed.

Lemma noLaterOccurrence_sound (marker post : jsstring) :
  noLaterOccurrence marker post = true ->
  forall k, 0 < k <= length post -> occursAt (marker ++ post) marker k = false.
Proof.
  unfold noLaterOccurrence. rewrite forallb_forall. intros H k Hk.
  apply negb_true_iff, H, in_seq. lia.
Qed.

(* ================================================================== *)
(** * Properties of the streaming response parser *)
(* ================================================================== *)

(** The [inString] flag is only ever toggled in a branch that is reached
    when it is already set, so the loop that starts with the flag down
    never raises it: the scan is the plain brace counter. *)
Lemma scanLoop_ignores_strings (rest : jsstring) (count : Z) (jsonChars : jsstring) :
  scanLoop rest count false false jsonChars = countBraces rest count jsonChars.
Proof.
  revert count jsonChars.
  induction rest as [|char rest IH]; intros count jsonChars; simpl; [reflexivity|].
  destruct (N.eqb char LBRACE); [apply IH|].
  destruct (N.eqb char RBRACE); [|apply IH].
  destruct (count - 1 =? 0)%Z; [reflexivity | apply IH].
Qed.

(** What the scan returns ends with the character it stopped on: an
    extracted text is never empty, hence truthy. *)
Lemma scanLoop_nonEmpty (rest : jsstring) (count : Z) (inString escape : bool)
      (jsonChars found : jsstring) :
  scanLoop rest count inString escape jsonChars = Some found ->
  nonEmpty (Some found) = true.
Proof.
  revert count inString escape jsonChars.
  induction rest as [|char rest IH]; intros count inString escape jsonChars;
    cbn [scanLoop]; [discriminate|].
  repeat match goal with
         | |- (if ?b then _ else _) = _ -> _ => destruct b
         end;
    try apply IH.
  intros [= <-]. now destruct jsonChars.
Qed.

Lemma extractJson_nonEmpty (text marker found : jsstring) :
  extractJson text marker = Some found -> nonEmpty (Some found) = true.
Proof.
  unfold extractJson, extractObject.
  destruct (lastIndexOf text marker); [|discriminate].
  destruct (indexOf _ _); [|discriminate].
  apply scanLoop_nonEmpty.
Qed.

(** C1, at the failing input: the closing brace inside the string
    literal of the reply brings the depth counter to zero, and the
    extracted text stops in the middle of the string instead of being
    the complete object. *)
Theorem extractJson_brace_in_string_truncates :
  extractJson (jsq "new_message.json: {'state':'done','reply':'a}b'}") MESSAGE_MARKER
  = Some (jsq "{'state':'done','reply':'a}")
  /\ extractJson (jsq "new_message.json: {'state':'done','reply':'a{b'}") MESSAGE_MARKER
     = None.
Proof. split; vm_compute; reflexivity. Qed.

(** C7: when the marker occurs several times, the text before its last
    occurrence, earlier occurrences and what follows them included, does
    not contribute: the result is computed from what follows the last
    occurrence alone. *)
Theorem extractJson_last_marker (pre marker post : jsstring) :
  (forall k, 0 < k <= length post -> occursAt (marker ++ post) marker k = false) ->
  extractJson (pre ++ marker ++ post) marker = extractObject post.
Proof.
  intros Hlast. unfold extractJson.
  assert (Hpos : lastIndexOf (pre ++ marker ++ post) marker = Some (length pre)).
  { apply lastIndexOf_spec. repeat split.
    - unfold occursAt. rewrite skipn_past_prefix by lia.
      rewrite Nat.sub_diag. simpl. apply startsWith_app.
    - rewrite !length_app. lia.
    - intros q Hq Hroom. unfold occursAt.
      rewrite skipn_past_prefix by lia.
      apply Hlast. rewrite !length_app in Hroom. lia. }
  rewrite Hpos. unfold substring.
  rewrite skipn_past_prefix by lia.
  replace (length pre + length marker - length pre) with (length marker) by lia.
  rewrite skipn_app, skipn_all, Nat.sub_diag. reflexivity.
Qed.

Lemma extractJson_last_marker_witness :
  extractJson (jsq "thread.json: {'id':'old'} thread.json: {'id':'new'} tail")
              THREAD_MARKER
  = Some (jsq "{'id':'new'}").
Proof.
  change (jsq "thread.json: {'id':'old'} thread.json: {'id':'new'} tail")
    with (jsq "thread.json: {'id':'old'} " ++ THREAD_MARKER ++ jsq " {'id':'new'} tail").
  rewrite (@extractJson_last_marker (jsq "thread.json: {'id':'old'} ") THREAD_MARKER
             (jsq " {'id':'new'} tail")).
  - vm_compute. reflexivity.
  - apply noLaterOccurrence_sound. vm_compute. reflexivity.
Defined.

(* ================================================================== *)
(** * Properties of the matcher: the fuel is enough *)
(* ================================================================== *)

Lemma greedyLoop_ext step k1 k2 :
  respectful step ->
  (forall s caps, k1 s caps = k2 s caps) ->
  forall fuel s caps,
    greedyLoop step k1 fuel s caps = greedyLoop step k2 fuel s caps.
Proof.
  intros Hstep Hk. induction fuel as [|fuel IH]; intros s caps; cbn [greedyLoop].
  - apply Hk.
  - rewrite Hk.
    rewrite (Hstep s caps
               (fun s' caps' => if length s' <? length s
                                then greedyLoop step k1 fuel s' caps' else None)
               (fun s' caps' => if length s' <? length s
                                then greedyLoop step k2 fuel s' caps' else None));
      [reflexivity|].
    intros s' caps'. destruct (length s' <? length s); [apply IH | reflexivity].
Qed.

Lemma lazyLoop_ext step k1 k2 :
  respectful step ->
  (forall s caps, k1 s caps = k2 s caps) ->
  forall fuel s caps,
    lazyLoop step k1 fuel s caps = lazyLoop step k2 fuel s caps.
Proof.
  intros Hstep Hk. induction fuel as [|fuel IH]; intros s caps; cbn [lazyLoop].
  - apply Hk.
  - rewrite Hk.
    rewrite (Hstep s caps
               (fun s' caps' => if length s' <? length s
                                then lazyLoop step k1 fuel s' caps' else None)
               (fun s' caps' => if length s' <? length s
                                then lazyLoop step k2 fuel s' caps' else None));
      [reflexivity|].
    intros s' caps'. destruct (length s' <? length s); [apply IH | reflexivity].
Qed.

Lemma rmatch_respectful (r : regex) : respectful (rmatch r).
Proof.
  induction r as [| c | p | r1 IH1 r2 IH2 | r1 IH1 r2 IH2 | r IH | r IH | n r IH];
    intros s caps k1 k2 Hk; cbn [rmatch].
  - apply Hk.
  - destruct s as [|x s']; [reflexivity|]. now rewrite Hk.
  - destruct s as [|x s']; [reflexivity|]. now rewrite Hk.
  - apply IH1. intros s' caps'. now apply IH2.
  - now rewrite (IH1 s caps k1 k2 Hk), (IH2 s caps k1 k2 Hk).
  - now apply greedyLoop_ext.
  - now apply lazyLoop_ext.
  - apply IH. intros s' caps'. apply Hk.
Qed.

(** Every iteration of a repetition consumes a character, so the loops
    never reach the end of their fuel: any fuel above the length of the
    input gives the same result. *)
Lemma greedyLoop_fuel step k :
  respectful step ->
  forall fuel1 fuel2 s caps,
    length s < fuel1 -> length s < fuel2 ->
    greedyLoop step k fuel1 s caps = greedyLoop step k fuel2 s caps.
Proof.
  intros Hstep. induction fuel1 as [|fuel1 IH]; intros fuel2 s caps H1 H2; [lia|].
  destruct fuel2 as [|fuel2]; [lia|]. cbn [greedyLoop].
  rewrite (Hstep s caps
             (fun s' caps' => if length s' <? length s
                              then greedyLoop step k fuel1 s' caps' else None)
             (fun s' caps' => if length s' <? length s
                              then greedyLoop step k fuel2 s' caps' else None));
    [reflexivity|].
  intros s' caps'. destruct (length s' <? length s) eqn:E; [|reflexivity].
  apply Nat.ltb_lt in E. apply IH; lia.
Qed.

Lemma lazyLoop_fuel step k :
  respectful step ->
  forall fuel1 fuel2 s caps,
    length s < fuel1 -> length s < fuel2 ->
    lazyLoop step k fuel1 s caps = lazyLoop step k fuel2 s caps.
Proof.
  intros Hstep. induction fuel1 as [|fuel1 IH]; intros fuel2 s caps H1 H2; [lia|].
  destruct fuel2 as [|fuel2]; [lia|]. cbn [lazyLoop].
  rewrite (Hstep s caps
             (fun s' caps' => if length s' <? length s
                              then lazyLoop step k fuel1 s' caps' else None)
             (fun s' caps' => if length s' <? length s
                              then lazyLoop step k fuel2 s' caps' else None));
    [reflexivity|].
  intros s' caps'. destruct (length s' <? length s) eqn:E; [|reflexivity].
  apply Nat.ltb_lt in E. apply IH; lia.
Qed.

(** A match never gives back more input than it was given. *)
Lemma rmatch_shorter (r : regex) :
  forall s caps k res,
    rmatch r s caps k = Some res ->
    exists s' caps', length s' <= length s /\ k s' caps' = Some res.
Proof.
  induction r as [| c | p | r1 IH1 r2 IH2 | r1 IH1 r2 IH2 | r IH | r IH | n r IH];
    intros s caps k res; cbn [rmatch].
  - intros H. exists s, caps. auto.
  - destruct s as [|x s']; [discriminate|].
    destruct (N.eqb x c); [|discriminate].
    intros H. exists s', caps. simpl. auto.
  - destruct s as [|x s']; [discriminate|].
    destruct (p x); [|discriminate].
    intros H. exists s', caps. simpl. auto.
  - intros H. apply IH1 in H as (s1 & caps1 & Hlen1 & H).
    apply IH2 in H as (s2 & caps2 & Hlen2 & H).
    exists s2, caps2. split; [lia | assumption].
  - destruct (rmatch r1 s caps k) eqn:E.
    + intros [= <-]. now apply IH1 in E.
    + apply IH2.
  - generalize (S (length s)) as fuel. intros fuel. revert s caps.
    induction fuel as [|fuel IHfuel]; intros s caps; cbn [greedyLoop].
    + intros H. exists s, caps. auto.
    + destruct (rmatch r s caps _) eqn:E.
      * intros [= <-]. apply IH in E as (s1 & caps1 & Hlen1 & E).
        destruct (length s1 <? length s); [|discriminate].
        apply IHfuel in E as (s2 & caps2 & Hlen2 & E).
        exists s2, caps2. split; [lia | assumption].
      * intros H. exists s, caps. auto.
  - generalize (S (length s)) as fuel. intros fuel. revert s caps.
    induction fuel as [|fuel IHfuel]; intros s caps; cbn [lazyLoop].
    + intros H. exists s, caps. auto.
    + destruct (k s caps) eqn:Ek.
      * intros [= <-]. exists s, caps. auto.
      * intros E. apply IH in E as (s1 & caps1 & Hlen1 & E).
        destruct (length s1 <? length s); [|discriminate].
        apply IHfuel in E as (s2 & caps2 & Hlen2 & E).
        exists s2, caps2. split; [lia | assumption].
  - intros H. apply IH in H as (s1 & caps1 & Hlen1 & H).
    eexists s1, _. split; [assumption | exact H].
Qed.

Lemma exec_shorter (r : regex) (s s' : jsstring) (caps : captures) :
  exec r s = Some (s', caps) -> length s' <= length s.
Proof.
  unfold exec. intros H.
  apply rmatch_shorter in H as (s1 & caps1 & Hlen & [= <- _]). exact Hlen.
Qed.

(** The same for the replacement loop: its result does not depend on the
    fuel, once above the length of the string. *)
Lemma replaceLoop_fuel (r : regex) (f : replacer) :
  forall fuel1 fuel2 s,
    length s < fuel1 -> length s < fuel2 ->
    replaceLoop fuel1 r f s = replaceLoop fuel2 r f s.
Proof.
  induction fuel1 as [|fuel1 IH]; intros fuel2 s H1 H2; [lia|].
  destruct fuel2 as [|fuel2]; [lia|]. cbn [replaceLoop].
  destruct (exec r s) as [[s' caps]|] eqn:E.
  - apply exec_shorter in E.
    destruct (firstn (length s - length s') s) as [|c matched] eqn:Hm.
    + destruct s as [|x t]; [reflexivity|].
      f_equal. f_equal. apply IH; simpl in *; lia.
    + f_equal. apply IH; [|].
      * assert (length s - length s' <> 0)
          by (intros Hz; rewrite Hz in Hm; discriminate).
        lia.
      * assert (length s - length s' <> 0)
          by (intros Hz; rewrite Hz in Hm; discriminate).
        lia.
  - destruct s as [|x t]; [reflexivity|].
    f_equal. apply IH; simpl in *; lia.
Qed.

Corollary replaceAll_fuel (r : regex) (f : replacer) (s : jsstring) (extra : nat) :
  replaceLoop (S (length s) + extra) r f s = replaceAll r f s.
Proof. unfold replaceAll. apply replaceLoop_fuel; lia. Qed.

(* ================================================================== *)
(** * Properties of the reply formatter *)
(* ================================================================== *)

(** C9: the [html] (verbatim) representation passes the reply through
    unchanged, for every markup string. *)
Theorem formatResponse_html_identity (x : jsstring) :
  formatResponse (VStr x) (js "html") = inr (VStr x).
Proof. reflexivity. Qed.

(** The same holds for a reply of any type. *)
Lemma formatResponse_html_any (v : value) : formatResponse v (js "html") = inr v.
Proof. reflexivity. Qed.

(** An unknown format falls back to the markdown conversion. *)
Lemma formatResponse_default (v : value) (format : jsstring) :
  str_eqb format (js "html") = false ->
  str_eqb format (js "plain") = false ->
  formatResponse v format = onString htmlToMarkdown v.
Proof.
  intros H1 H2. unfold formatResponse. rewrite H1, H2.
  now destruct (str_eqb format (js "markdown")).
Qed.

Example markdown_paragraph :
  htmlToMarkdown (js "<p>Hello <strong>world</strong></p>") = js "Hello **world**".
Proof. vm_compute. reflexivity. Qed.

Lemma trimStart_Forall (P : N -> Prop) (s : jsstring) :
  Forall P s -> Forall P (trimStart s).
Proof.
  induction 1 as [|c s Hc Hs IH]; simpl; [constructor|].
  destruct (isWhiteSpace c); [assumption | now constructor].
Qed.

Lemma trim_Forall (P : N -> Prop) (s : jsstring) : Forall P s -> Forall P (trim s).
Proof.
  intros H. unfold trim, trimEnd.
  apply Forall_rev, trimStart_Forall, Forall_rev, trimStart_Forall, H.
Qed.

Lemma rmatch_Class_cons (p : N -> bool) (x : N) (s : jsstring) (caps : captures)
      (k : continuation) :
  rmatch (Class p) (x :: s) caps k = if p x then k s caps else None.
Proof. reflexivity. Qed.

Lemma rmatch_Class_nil (p : N -> bool) (caps : captures) (k : continuation) :
  rmatch (Class p) [] caps k = None.
Proof. reflexivity. Qed.

(** A greedy run of a character class, followed by nothing, always
    matches and leaves a suffix of the input. *)
Lemma greedyLoop_class (p : N -> bool) (fuel : nat) (s : jsstring) (caps : captures) :
  exists s', greedyLoop (rmatch (Class p)) (fun s' caps' => Some (s', caps'))
                        fuel s caps = Some (s', caps)
             /\ length s' <= length s.
Proof.
  revert s. induction fuel as [|fuel IH]; intros s.
  - exists s. split; [reflexivity | lia].
  - cbn [greedyLoop].
    destruct s as [|x s1].
    + rewrite rmatch_Class_nil. exists []. split; [reflexivity | simpl; lia].
    + rewrite rmatch_Class_cons. destruct (p x).
      * replace (length s1 <? length (x :: s1)) with true
          by (symmetry; apply Nat.ltb_lt; simpl; lia).
        destruct (IH s1) as (s' & Hs' & Hlen).
        rewrite Hs'.
        exists s'. split; [reflexivity | simpl; lia].
      * exists (x :: s1). split; [reflexivity | lia].
Qed.

(** After [replace(/\s+/g, ' ')] no white space but the space is left. *)
Lemma exec_spaces_cons (c : N) (t : jsstring) :
  exec re_spaces (c :: t)
  = if isWhiteSpace c
    then greedyLoop (rmatch (Class isWhiteSpace)) (fun s' caps' => Some (s', caps'))
                    (S (length t)) t []
    else None.
Proof. reflexivity. Qed.

Lemma replace_spaces_singleLine (fuel : nat) (s : jsstring) :
  length s < fuel ->
  singleLine (replaceLoop fuel re_spaces (template [Text (js " ")]) s).
Proof.
  revert s. induction fuel as [|fuel IH]; intros s Hfuel; [lia|].
  destruct s as [|c t]; [constructor|].
  simpl in Hfuel. cbn [replaceLoop].
  rewrite exec_spaces_cons. destruct (isWhiteSpace c) eqn:Hc.
  - destruct (greedyLoop_class isWhiteSpace (S (length t)) t [])
      as (s' & -> & Hlen).
    replace (length (c :: t) - length s') with (S (length t - length s'))
      by (cbn [length]; lia).
    cbn [firstn]. unfold template at 1. cbn [map concat app].
    constructor; [reflexivity|].
    apply IH. lia.
  - constructor; [congruence|]. apply IH. lia.
Qed.

(** The output of [htmlToPlain] never holds a line break: the last
    replacement turns every white-space run, line breaks included, into
    one space. *)
Lemma replaceAll_spaces_singleLine (s : jsstring) :
  singleLine (trim (replaceAll re_spaces (template [Text (js " ")]) s)).
Proof.
  apply trim_Forall. unfold replaceAll.
  apply replace_spaces_singleLine. lia.
Qed.

Lemma htmlToPlain_singleLine (html : jsstring) : ~ In LF (htmlToPlain html).
Proof.
  intros Hin. unfold htmlToPlain in Hin.
  match type of Hin with
  | In _ (trim (replaceAll _ _ ?s)) =>
      pose proof (replaceAll_spaces_singleLine s) as H
  end.
  unfold singleLine in H. rewrite Forall_forall in H.
  specialize (H LF Hin eq_refl). discriminate.
Qed.

(** C2, at the scenario's input: the list items come out separated by a
    space, on one line, not each on its own line. *)
Theorem htmlToPlain_list_scenario :
  formatResponse (VStr (js "<ul><li>a</li><li>b</li></ul>")) (js "plain")
  = inr (VStr (js "- a - b"))
  /\ js "- a - b" <> js "- a" ++ NL ++ js "- b".
Proof. split; [vm_compute; reflexivity | discriminate]. Qed.

(* ================================================================== *)
(** * Properties of the credentials and the model list *)
(* ================================================================== *)

Lemma nonEmpty_length (s : jsstring) :
  (0 <? length s)%nat = true -> nonEmpty (Some s) = true.
Proof. destruct s; simpl; [discriminate | reflexivity]. Qed.

(** A resolved token is never empty, so the check of line 235 never
    fires. *)
Lemma resolveToken_nonEmpty (w : World) (token : jsstring) :
  resolveToken w = inr token -> nonEmpty (Some token) = true.
Proof.
  unfold resolveToken.
  assert (Hfile :
    match readTokenFromFile w with
    | inl e => inl e
    | inr fileToken =>
        if nonEmpty fileToken
           && isValidTokenFormat (match fileToken with Some t => t | None => [] end)
        then inr (match fileToken with Some t => t | None => [] end)
        else inl NoValidToken
    end = inr token -> nonEmpty (Some token) = true).
  { destruct (readTokenFromFile w) as [e|[t|]]; simpl; try discriminate.
    destruct t as [|c t]; simpl; [discriminate|].
    destruct (isValidTokenFormat (c :: t)); [|discriminate].
    now intros [= <-]. }
  destruct (KAGI_SESSION_TOKEN (env w)) as [envToken|]; [|exact Hfile].
  destruct (nonEmpty (Some envToken) && isValidTokenFormat envToken) eqn:E;
    [|exact Hfile].
  apply andb_true_iff in E as [_ E]. intros [= <-].
  now apply nonEmpty_length.
Qed.

Lemma getEnvironmentConfig_token (w : World) (config : jsstring * jsstring) :
  getEnvironmentConfig w = inr config -> nonEmpty (Some (fst config)) = true.
Proof.
  unfold getEnvironmentConfig.
  destruct (resolveToken w) as [e|token] eqn:E; [discriminate|].
  intros [= <-]. simpl. now apply (resolveToken_nonEmpty w).
Qed.

(** The list is refused exactly when the variable is unset or empty. *)
Lemma getAvailableModels_fails_iff (w : World) :
  getAvailableModels w = inl ModelListNotSet
  <-> nonEmpty (KAGI_MODEL_LIST (env w)) = false.
Proof.
  unfold getAvailableModels.
  destruct (KAGI_MODEL_LIST (env w)) as [[|c t]|]; simpl; split;
    intros H; try reflexivity; discriminate.
Qed.

(* ================================================================== *)
(** * Properties of the request builder and of the checks before it *)
(* ================================================================== *)

Lemma buildRequestData_eq (w : World) (p : jsstring) (m : option jsstring)
      (ia : bool) (st : Store) :
  buildRequestData w p m ia st =
  if truthy (threadId st)
  then (inr (payload (threadId st) p m ia (Some (uuidv4 w (uuidCalls st)))), drawn st)
  else (inr (payload (threadId st) p m ia None), st).
Proof.
  unfold buildRequestData, bind, get, ret, draw_uuid.
  destruct (truthy (threadId st)); reflexivity.
Qed.

(** [prepare], check by check. *)
Lemma prepare_eq (w : World) (p : jsstring) (nc : bool) (m : option jsstring)
      (ia : bool) (st : Store) :
  prepare w p nc m ia st =
  if negb (nonEmpty (Some p)) then (inl NoPrompt, st) else
  match getEnvironmentConfig w with
  | inl e => (inl e, st)
  | inr config =>
      match getAvailableModels w with
      | inl e => (inl e, st)
      | inr availableModels =>
          if negb (nonEmpty (KAGI_SEARCH_COOKIE (env w))) then (inl CookieNotSet, st)
          else if negb (includes availableModels m)
               then (inl (InvalidModel m availableModels), st)
               else
                 let st1 := if nc then resetSession st else st in
                 if truthy (threadId st1)
                 then (inr (requestOf w (fst config)
                              (payload (threadId st1) p m ia
                                       (Some (uuidv4 w (uuidCalls st1))))),
                       drawn st1)
                 else (inr (requestOf w (fst config)
                              (payload (threadId st1) p m ia None)), st1)
      end
  end.
Proof.
  unfold prepare. unfold bind at 1, when at 1.
  destruct (negb (nonEmpty (Some p))); [reflexivity|].
  unfold ret at 1. unfold bind at 1, lift at 1.
  destruct (getEnvironmentConfig w) as [e|config] eqn:Hconfig; [reflexivity|].
  unfold bind at 1, lift at 1.
  destruct (getAvailableModels w) as [e|availableModels]; [reflexivity|].
  unfold bind at 1, when at 1.
  rewrite (getEnvironmentConfig_token w config Hconfig). cbn [negb].
  unfold ret at 1. unfold bind at 1, when at 1.
  destruct (negb (nonEmpty (KAGI_SEARCH_COOKIE (env w)))); [reflexivity|].
  unfold ret at 1. unfold bind at 1, when at 1.
  destruct (negb (includes availableModels m)); [reflexivity|].
  unfold ret at 1. unfold bind at 1, when at 1.
  destruct nc; cbn zeta.
  - unfold setThreadId, modify. unfold bind at 1.
    rewrite buildRequestData_eq. cbn [threadId uuidCalls resetSession].
    reflexivity.
  - unfold ret at 1. unfold bind at 1.
    rewrite buildRequestData_eq.
    destruct (truthy (threadId st)); reflexivity.
Qed.

(** What [prepare] does to the store: the session is kept or cleared,
    nothing is sent. *)
Lemma prepare_frame (w : World) (p : jsstring) (nc : bool) (m : option jsstring)
      (ia : bool) (st st' : Store) (r : exn + Request) :
  prepare w p nc m ia st = (r, st') ->
  (threadId st' = threadId st \/ threadId st' = VNull)
  /\ requests st' = requests st.
Proof.
  rewrite prepare_eq.
  destruct (negb (nonEmpty (Some p))); [intros [= <- <-]; auto|].
  destruct (getEnvironmentConfig w); [intros [= <- <-]; auto|].
  destruct (getAvailableModels w); [intros [= <- <-]; auto|].
  destruct (negb (nonEmpty (KAGI_SEARCH_COOKIE (env w)))); [intros [= <- <-]; auto|].
  destruct (negb (includes l m)); [intros [= <- <-]; auto|].
  cbn zeta.
  destruct nc; [destruct (truthy (threadId (resetSession st)))
               | destruct (truthy (threadId st))];
    intros [= <- <-]; auto.
Qed.

(** What [send] does to the store: the request is sent, the session is
    left alone. *)
Lemma send_frame (w : World) (req : Request) (st st' : Store) (r : exn + jsstring) :
  send w req st = (r, st') ->
  threadId st' = threadId st /\ requests st' = requests st ++ [req].
Proof.
  unfold send, bind, modify, throw, lift.
  destruct (fetch w req) as [e|status statusText text].
  - intros [= <- <-]. auto.
  - destruct (negb ((200 <=? status)%N && (status <=? 299)%N)).
    + destruct ((status =? 401)%N || (status =? 403)%N); intros [= <- <-]; auto.
    + intros [= <- <-]. auto.
Qed.

(** What the thread document does to the store: the session is kept, or
    set to a truthy identifier. *)
Lemma receive_frame (w : World) (text fmt : jsstring) (st st' : Store)
      (r : exn + value) :
  receive w text fmt st = (r, st') ->
  (threadId st' = threadId st \/ truthy (threadId st') = true)
  /\ requests st' = requests st.
Proof.
  unfold receive.
  set (thread := if nonEmpty (extractJson text THREAD_MARKER) then _ else _).
  unfold bind at 1.
  assert (Hthread : forall u st1, thread st = (u, st1) ->
            (threadId st1 = threadId st \/ truthy (threadId st1) = true)
            /\ requests st1 = requests st).
  { subst thread. intros u st1.
    destruct (nonEmpty (extractJson text THREAD_MARKER));
      [|unfold ret; intros [= <- <-]; auto].
    unfold tryCatch, bind, lift, when, setThreadId, console_warn, modify, ret.
    destruct (JSON_parse w _) as [e|threadData]; [intros [= <- <-]; auto|].
    destruct (getProp threadData (js "id")) as [e|id]; [intros [= <- <-]; auto|].
    destruct (truthy id) eqn:Hid; intros [= <- <-]; auto. }
  destruct (Hthread (fst (thread st)) (snd (thread st)) (surjective_pairing _))
    as [Hth Hreq].
  clear Hthread. clearbody thread.
  destruct (thread st) as [[e|u] st1]; cbn [fst snd] in Hth, Hreq.
  - intros [= <- <-]. auto.
  - unfold bind, when, tryCatch, lift, throw, ret.
    intros H.
    assert (st' = st1); [|subst; auto].
    repeat (match type of H with
            | context [if ?b then _ else _] => destruct b
            | context [match ?x with inl _ => _ | inr _ => _ end] => destruct x
            end; cbn beta iota in H);
      inversion H; reflexivity.
Qed.

(* ================================================================== *)
(** * Properties of the tool *)
(* ================================================================== *)

Lemma exchange_eq (w : World) (p : jsstring) (nc : bool) (m : option jsstring)
      (ia : bool) (fmt : jsstring) (st : Store) :
  exchange w p nc m ia fmt st =
  match prepare w p nc m ia st with
  | (inl e, st1) => (inl e, st1)
  | (inr req, st1) =>
      match send w req st1 with
      | (inl e, st2) => (inl e, st2)
      | (inr text, st2) => receive w text fmt st2
      end
  end.
Proof. reflexivity. Qed.

Lemma kagiAssistant_eq (args : Args) (w : World) (st : Store) :
  kagiAssistant args w st =
  match modelParameter args w with
  | inl e => (Rejected e, st)
  | inr m =>
      match exchange w (prompt args) (orDefault (new_conversation args) true) m
                     (orDefault (internet_access args) true)
                     (orDefault (format args) (js "markdown")) st with
      | (inr text, st') => (Resolved text, st')
      | (inl e, st') => (Resolved (VStr (formatError e)), st')
      end
  end.
Proof.
  unfold kagiAssistant, tryCatch, ret.
  destruct (modelParameter args w) as [e|m]; [reflexivity|].
  now destruct (exchange _ _ _ _ _ _ _) as [[e|text] st'].
Qed.

(** Once the parameters are bound, every error of the exchange is
    caught and returned as the text of the result. *)
Lemma kagiAssistant_catches (args : Args) (w : World) (st : Store)
      (m : option jsstring) :
  modelParameter args w = inr m ->
  exists text, fst (kagiAssistant args w st) = Resolved text.
Proof.
  intros Hm. rewrite kagiAssistant_eq, Hm.
  destruct (exchange _ _ _ _ _ _ _) as [[e|text] st']; eexists; reflexivity.
Qed.

Lemma kagiAssistant_supplied_model (args : Args) (w : World) (st : Store)
      (m : jsstring) :
  model args = Some m -> exists text, fst (kagiAssistant args w st) = Resolved text.
Proof.
  intros Hm. apply kagiAssistant_catches with (m := Some m).
  unfold modelParameter. now rewrite Hm.
Qed.

(** The requests a call adds to the trace. *)
Lemma kagiAssistant_requests (args : Args) (w : World) (st : Store) :
  requests (snd (kagiAssistant args w st)) = requests st ++ sentBy args w st.
Proof.
  rewrite kagiAssistant_eq. unfold sentBy.
  destruct (modelParameter args w) as [e|m]; [simpl; now rewrite app_nil_r|].
  rewrite exchange_eq.
  destruct (prepare _ _ _ _ _ _) as [[e|req] st1] eqn:Hprep;
    apply prepare_frame in Hprep as [_ Hreq1].
  - simpl. now rewrite app_nil_r.
  - destruct (send w req st1) as [[e|text] st2] eqn:Hsend;
      apply send_frame in Hsend as [_ Hreq2].
    + simpl. congruence.
    + destruct (receive w text _ st2) as [[e|v] st3] eqn:Hrecv;
        apply receive_frame in Hrecv as [_ Hreq3]; simpl; congruence.
Qed.

(** The session invariant holds in every store the process reaches. *)
Lemma kagiAssistant_invariant (args : Args) (w : World) (st : Store) :
  sessionInvariant st -> sessionInvariant (snd (kagiAssistant args w st)).
Proof.
  unfold sessionInvariant. intros Hst.
  rewrite kagiAssistant_eq.
  destruct (modelParameter args w) as [e|m]; [exact Hst|].
  rewrite exchange_eq.
  destruct (prepare _ _ _ _ _ _) as [[e|req] st1] eqn:Hprep;
    apply prepare_frame in Hprep as [Hth1 _].
  - simpl. destruct Hth1 as [-> | ->]; auto.
  - assert (H1 : threadId st1 = VNull \/ truthy (threadId st1) = true)
      by (destruct Hth1 as [-> | ->]; auto).
    destruct (send w req st1) as [[e|text] st2] eqn:Hsend;
      apply send_frame in Hsend as [Hth2 _].
    + simpl. now rewrite Hth2.
    + destruct (receive w text _ st2) as [[e|v] st3] eqn:Hrecv;
        apply receive_frame in Hrecv as [Hth3 _]; simpl;
        (destruct Hth3 as [-> | ->]; [now rewrite Hth2 | auto]).
Qed.

Lemma reachable_invariant (st : Store) : reachable st -> sessionInvariant st.
Proof.
  induction 1 as [|args w st _ IH|st _ IH].
  - now left.
  - now apply kagiAssistant_invariant.
  - now left.
Qed.

(** The scenario of a first exchange: the thread document sets the
    session, the reply comes back as markdown. *)
Example first_exchange :
  fst (kagiAssistant (Demo.args "hello" true "a")
                     (Demo.world Demo.environment Demo.responseText) initialStore)
  = Resolved (VStr (js "Hi"))
  /\ threadId Demo.continued = VStr (js "abc")
  /\ map body (requests Demo.continued)
     = [payload VNull (js "hello") (Some (js "a")) true None].
Proof. repeat split; vm_compute; reflexivity. Qed.

(** A response without the message marker. *)
Example missing_message_marker :
  fst (kagiAssistant (Demo.args "hello" true "a")
                     (Demo.world Demo.environment (js "thread.json: no document"))
                     initialStore)
  = Resolved (VStr (js "Error: Failed to parse assistant response")).
Proof. vm_compute. reflexivity. Qed.

(** C3: in every environment in which the module loads, for every input
    and every store, the [model] parameter binds, and the call is
    fulfilled with a text: an error arising during the exchange ends the
    call in the store the exchange had reached, and is returned as the
    one text of the result, [Error: ] followed by its message; a reply is
    returned as it is.  No call ends in a rejection. *)
Theorem kagiAssistant_errors_returned_as_text (w : World) (schema : InputSchema) :
  assistantInputSchema w = inr schema ->
  forall (args : Args) (st : Store),
    exists m,
      modelParameter args w = inr m
      /\ (forall e st',
             exchange w (prompt args) (orDefault (new_conversation args) true) m
                      (orDefault (internet_access args) true)
                      (orDefault (format args) (js "markdown")) st = (inl e, st') ->
             kagiAssistant args w st = (Resolved (VStr (formatError e)), st')
             /\ exists msg, formatError e = js "Error: " ++ msg)
      /\ (forall text st',
             exchange w (prompt args) (orDefault (new_conversation args) true) m
                      (orDefault (internet_access args) true)
                      (orDefault (format args) (js "markdown")) st = (inr text, st') ->
             kagiAssistant args w st = (Resolved text, st'))
      /\ (forall e, fst (kagiAssistant args w st) <> Rejected e).
Proof.
  unfold assistantInputSchema. intros Hload args st.
  destruct (getDefaultModel w) as [e|d] eqn:Hdefault; [discriminate|].
  exists (match model args with Some m => Some m | None => d end).
  assert (Hmodel : modelParameter args w
                   = inr (match model args with Some m => Some m | None => d end)).
  { unfold modelParameter. destruct (model args); [reflexivity | exact Hdefault]. }
  split; [exact Hmodel|].
  rewrite kagiAssistant_eq, Hmodel.
  split; [|split].
  - intros e st' Hexchange. rewrite Hexchange. split; [reflexivity|].
    unfold formatError. eexists. reflexivity.
  - intros text st' Hexchange. rewrite Hexchange. reflexivity.
  - intros e.
    destruct (exchange _ _ _ _ _ _ _) as [[e'|text] st']; cbn [fst]; discriminate.
Qed.

Lemma kagiAssistant_errors_returned_as_text_witness :
  kagiAssistant (Demo.promptOnly "")
                (Demo.world Demo.environment Demo.responseText) initialStore
  = (Resolved (VStr (js "Error: Assistant called with no prompt.")), initialStore).
Proof.
  destruct (kagiAssistant_errors_returned_as_text
              (Demo.world Demo.environment Demo.responseText)
              {| model_default := Some (js "a");
                 model_description :=
                   js "AI model to use for the conversation. Available models: a, b" |}
              ltac:(vm_compute; reflexivity)
              (Demo.promptOnly "") initialStore)
    as (m & Hmodel & Herror & _).
  assert (Hm : m = Some (js "a")).
  { vm_compute in Hmodel. injection Hmodel as <-. reflexivity. }
  subst m.
  destruct (Herror NoPrompt initialStore ltac:(vm_compute; reflexivity)) as [Hcall _].
  exact Hcall.
Defined.

(** The hypothesis on the load is what binds the parameter: in the model
    of the function alone, taken in an environment without a model list
    (one in which the module does not load), the default initialiser of
    [model] throws before the [try] block is entered, while the same
    error raised inside the block, when the model is supplied, is
    returned as text. *)
Remark kagiAssistant_default_model_escapes :
  kagiAssistant (Demo.promptOnly "hello")
                (Demo.world Demo.noModelList Demo.responseText) initialStore
  = (Rejected ModelListNotSet, initialStore)
  /\ kagiAssistant (Demo.args "hello" true "a")
                   (Demo.world Demo.noModelList Demo.responseText) initialStore
     = (Resolved (VStr (formatError ModelListNotSet)), initialStore).
Proof. split; vm_compute; reflexivity. Qed.

(** C4: in every store the process reaches, the payload carries a
    [message_id] exactly when the session holds a thread identifier; and
    with [new_conversation = false] and a session holding [T], the
    request carries [T] as [thread_id] and, as [message_id], the
    identifier drawn from the generator by this call. *)
Theorem message_id_iff_session_holds_thread (st : Store) :
  reachable st ->
  forall (w : World) (p : jsstring) (m : option jsstring) (ia : bool),
    (exists data st',
        buildRequestData w p m ia st = (inr data, st')
        /\ (message_id (focus data) <> None <-> threadId st <> VNull))
    /\ (forall T req st',
           threadId st = T -> T <> VNull ->
           prepare w p false m ia st = (inr req, st') ->
           thread_id (focus (body req)) = T
           /\ message_id (focus (body req)) = Some (uuidv4 w (uuidCalls st))
           /\ uuidCalls st' = S (uuidCalls st)).
Proof.
  intros Hreach w p m ia.
  apply reachable_invariant in Hreach as Hinv.
  split.
  - rewrite buildRequestData_eq.
    destruct Hinv as [Hnull | Htruthy].
    + rewrite Hnull. simpl. do 2 eexists. split; [reflexivity|].
      simpl. split; intros H; now elim H.
    + rewrite Htruthy. do 2 eexists. split; [reflexivity|].
      simpl. split; intros _; [|discriminate].
      intros Hnull. rewrite Hnull in Htruthy. discriminate.
  - intros T req st' HT Hheld. rewrite prepare_eq.
    destruct (negb (nonEmpty (Some p))); [discriminate|].
    destruct (getEnvironmentConfig w); [discriminate|].
    destruct (getAvailableModels w); [discriminate|].
    destruct (negb (nonEmpty (KAGI_SEARCH_COOKIE (env w)))); [discriminate|].
    destruct (negb (includes l m)); [discriminate|].
    cbn zeta.
    destruct Hinv as [Hnull | Htruthy]; [congruence|].
    rewrite Htruthy. intros [= <- <-]. simpl. auto.
Qed.

Lemma message_id_iff_session_holds_thread_witness :
  reachable Demo.continued
  /\ (exists data st',
         buildRequestData (Demo.world Demo.environment Demo.responseText)
                          (js "again") (Some (js "a")) true Demo.continued
         = (inr data, st')
         /\ (message_id (focus data) <> None <-> threadId Demo.continued <> VNull))
  /\ thread_id (focus (body Demo.again)) = VStr (js "abc")
  /\ message_id (focus (body Demo.again)) = Some (js "uuid-0")
  /\ uuidCalls (drawn Demo.continued) = 1.
Proof.
  pose proof (message_id_iff_session_holds_thread Demo.continued
                (reach_call _ _ _ reach_initial)
                (Demo.world Demo.environment Demo.responseText)
                (js "again") (Some (js "a")) true) as [Hiff Hcont].
  split; [exact (reach_call _ _ _ reach_initial)|].
  split; [exact Hiff|].
  apply (Hcont (VStr (js "abc")) Demo.again (drawn Demo.continued)).
  - vm_compute. reflexivity.
  - discriminate.
  - vm_compute. reflexivity.
Defined.

(** C5: with [new_conversation = true] (given, or by default), whatever
    the session held before, the request the call sends has a null
    [thread_id] and no [message_id]. *)
Theorem new_conversation_starts_thread (args : Args) (w : World) (st : Store)
        (sent : list Request) :
  orDefault (new_conversation args) true = true ->
  requests (snd (kagiAssistant args w st)) = requests st ++ sent ->
  Forall startsThread sent.
Proof.
  intros Hnew Hsent.
  rewrite kagiAssistant_requests in Hsent.
  apply app_inv_head in Hsent. subst sent.
  unfold sentBy. destruct (modelParameter args w) as [e|m]; [constructor|].
  rewrite Hnew, prepare_eq.
  destruct (negb (nonEmpty (Some (prompt args)))); [constructor|].
  destruct (getEnvironmentConfig w); [constructor|].
  destruct (getAvailableModels w); [constructor|].
  destruct (negb (nonEmpty (KAGI_SEARCH_COOKIE (env w)))); [constructor|].
  destruct (negb (includes l m)); [constructor|].
  cbn. repeat constructor.
Qed.

Lemma new_conversation_starts_thread_witness :
  threadId Demo.continued = VStr (js "abc")
  /\ Forall startsThread
       [requestOf (Demo.world Demo.environment Demo.responseText) (js "session-token")
                  (payload VNull (js "afresh") (Some (js "a")) true None)].
Proof.
  split; [vm_compute; reflexivity|].
  apply (new_conversation_starts_thread
           (Demo.args "afresh" true "a")
           (Demo.world Demo.environment Demo.responseText) Demo.continued).
  - reflexivity.
  - vm_compute. reflexivity.
Defined.

(** C8: a supplied model that is not in the allow-list makes the call
    fail, once the prompt and the credentials are there, with the error
    whose message names the models of the list; nothing is sent and the
    session is left as it was. *)
Theorem invalid_model_names_allowed_set (args : Args) (w : World) (st : Store)
        (m : jsstring) (config : jsstring * jsstring)
        (availableModels : list jsstring) :
  model args = Some m ->
  nonEmpty (Some (prompt args)) = true ->
  getEnvironmentConfig w = inr config ->
  nonEmpty (KAGI_SEARCH_COOKIE (env w)) = true ->
  getAvailableModels w = inr availableModels ->
  includes availableModels (Some m) = false ->
  kagiAssistant args w st
  = (Resolved (VStr (formatError (InvalidModel (Some m) availableModels))), st)
  /\ formatError (InvalidModel (Some m) availableModels)
     = js "Error: Invalid model " ++ [DQUOTE] ++ m ++ [DQUOTE]
       ++ js ". Available models: " ++ join (js ", ") availableModels.
Proof.
  intros Hm Hprompt Hconfig Hcookie Hmodels Hnotin. split; [|reflexivity].
  rewrite kagiAssistant_eq. unfold modelParameter. rewrite Hm.
  rewrite exchange_eq, prepare_eq.
  rewrite Hprompt, Hconfig, Hmodels, Hcookie, Hnotin. reflexivity.
Qed.

Lemma invalid_model_names_allowed_set_witness :
  kagiAssistant (Demo.args "hello" true "c")
                (Demo.world Demo.environment Demo.responseText) initialStore
  = (Resolved (VStr (js "Error: Invalid model " ++ [DQUOTE] ++ js "c" ++ [DQUOTE]
                     ++ js ". Available models: a, b")), initialStore).
Proof.
  apply (invalid_model_names_allowed_set
           (Demo.args "hello" true "c")
           (Demo.world Demo.environment Demo.responseText) initialStore
           (js "c") (js "session-token", js "default") [js "a"; js "b"]);
    vm_compute; reflexivity.
Defined.

(** C6, the counterexample: a model list that is set but holds no entry
    gives an empty allow-list without any configuration error; the call
    fails on the model instead. *)
Lemma blank_model_list_no_configuration_error :
  getAvailableModels (Demo.world Demo.blankModelList Demo.responseText) = inr []
  /\ kagiAssistant (Demo.args "hello" true "a")
                   (Demo.world Demo.blankModelList Demo.responseText) initialStore
     = (Resolved (VStr (formatError (InvalidModel (Some (js "a")) []))), initialStore)
  /\ InvalidModel (Some (js "a")) [] <> ModelListNotSet.
Proof. repeat split; [vm_compute; reflexivity.. | discriminate]. Qed.

(** C6, as amended: when the model list variable is unset or the empty
    string, reading the allow-list fails with the configuration error,
    and so does the call for every requested model, once the prompt and
    the token are there. *)
Theorem model_list_unset_configuration_error (w : World) :
  KAGI_MODEL_LIST (env w) = None \/ KAGI_MODEL_LIST (env w) = Some [] ->
  getAvailableModels w = inl ModelListNotSet
  /\ forall (args : Args) (st : Store) (m : jsstring) (config : jsstring * jsstring),
      model args = Some m ->
      nonEmpty (Some (prompt args)) = true ->
      getEnvironmentConfig w = inr config ->
      kagiAssistant args w st = (Resolved (VStr (formatError ModelListNotSet)), st).
Proof.
  intros Hunset.
  assert (Hfail : getAvailableModels w = inl ModelListNotSet).
  { apply getAvailableModels_fails_iff. now destruct Hunset as [-> | ->]. }
  split; [exact Hfail|].
  intros args st m config Hm Hprompt Hconfig.
  rewrite kagiAssistant_eq. unfold modelParameter. rewrite Hm.
  rewrite exchange_eq, prepare_eq.
  rewrite Hprompt, Hconfig, Hfail. reflexivity.
Qed.

Lemma model_list_unset_configuration_error_witness :
  getAvailableModels (Demo.world Demo.noModelList Demo.responseText)
  = inl ModelListNotSet
  /\ kagiAssistant (Demo.args "hello" true "a")
                   (Demo.world Demo.noModelList Demo.responseText) initialStore
     = (Resolved (VStr (formatError ModelListNotSet)), initialStore).
Proof.
  destruct (model_list_unset_configuration_error
              (Demo.world Demo.noModelList Demo.responseText) (or_introl eq_refl))
    as [Hlist Hcall].
  split; [exact Hlist|].
  apply (Hcall (Demo.args "hello" true "a") initialStore (js "a")
               (js "session-token", js "default"));
    vm_compute; reflexivity.
Defined.

(** The message document of a response with state [done] and an empty
    reply: the [&&] of line 327 is falsy and the exchange throws. *)
Lemma receive_empty_reply (w : World) (text fmt messageJson : jsstring)
      (props : list (jsstring * value)) (st : Store) :
  extractJson text MESSAGE_MARKER = Some messageJson ->
  JSON_parse w messageJson = inr (VObj props) ->
  lookup (js "state") props = VStr (js "done") ->
  lookup (js "reply") props = VStr [] ->
  fst (receive w text fmt st) = inl UnexpectedFormat.
Proof.
  unfold receive.
  set (thread := if nonEmpty (extractJson text THREAD_MARKER) then _ else _).
  intros Hextract Hparse Hstate Hreply. revert Hparse.
  assert (Hthread : exists st1, thread st = (inr tt, st1)).
  { subst thread.
    destruct (nonEmpty (extractJson text THREAD_MARKER)); [|now exists st].
    unfold tryCatch, bind, lift, when, setThreadId, console_warn, modify, ret.
    destruct (JSON_parse w _) as [e|threadData]; [eexists; reflexivity|].
    destruct (getProp threadData (js "id")) as [e|id]; [eexists; reflexivity|].
    destruct (truthy id); eexists; reflexivity. }
  destruct Hthread as [st1 Hthread]. clearbody thread. intros Hparse.
  unfold bind at 1. rewrite Hthread.
  rewrite Hextract, (extractJson_nonEmpty _ _ _ Hextract).
  unfold bind, when, tryCatch, lift, ret, throw. cbn [negb].
  rewrite Hparse. cbn [getProp]. rewrite Hstate, Hreply. reflexivity.
Qed.

(** C10: a message document with state [done] and a reply that is the
    empty string makes the exchange fail with the error of the
    unexpected format, returned as the text of the result. *)
Theorem done_with_empty_reply_fails (args : Args) (w : World) (st st1 st2 : Store)
        (m : option jsstring) (req : Request) (text messageJson : jsstring)
        (props : list (jsstring * value)) :
  modelParameter args w = inr m ->
  prepare w (prompt args) (orDefault (new_conversation args) true) m
          (orDefault (internet_access args) true) st = (inr req, st1) ->
  send w req st1 = (inr text, st2) ->
  extractJson text MESSAGE_MARKER = Some messageJson ->
  JSON_parse w messageJson = inr (VObj props) ->
  lookup (js "state") props = VStr (js "done") ->
  lookup (js "reply") props = VStr [] ->
  fst (kagiAssistant args w st)
  = Resolved (VStr (js "Error: Assistant response not in expected format")).
Proof.
  intros Hm Hprep Hsend Hextract Hparse Hstate Hreply.
  rewrite kagiAssistant_eq, Hm, exchange_eq, Hprep, Hsend.
  pose proof (receive_empty_reply w text (orDefault (format args) (js "markdown"))
                messageJson props st2 Hextract Hparse Hstate Hreply) as Hrecv.
  destruct (receive w text _ st2) as [[e|v] st3]; cbn [fst] in Hrecv;
    [|discriminate].
  injection Hrecv as ->. reflexivity.
Qed.

Lemma done_with_empty_reply_fails_witness :
  fst (kagiAssistant (Demo.args "hello" true "a")
                     (Demo.world Demo.environment Demo.emptyReplyText) initialStore)
  = Resolved (VStr (js "Error: Assistant response not in expected format")).
Proof.
  apply (done_with_empty_reply_fails
           (Demo.args "hello" true "a")
           (Demo.world Demo.environment Demo.emptyReplyText)
           initialStore initialStore
           (snd (send (Demo.world Demo.environment Demo.emptyReplyText)
                      (requestOf (Demo.world Demo.environment Demo.emptyReplyText)
                                 (js "session-token")
                                 (payload VNull (js "hello") (Some (js "a")) true None))
                      initialStore))
           (Some (js "a"))
           (requestOf (Demo.world Demo.environment Demo.emptyReplyText)
                      (js "session-token")
                      (payload VNull (js "hello") (Some (js "a")) true None))
           Demo.emptyReplyText Demo.emptyReplyDoc
           [(js "state", VStr (js "done")); (js "reply", VStr [])]);
    vm_compute; reflexivity.
Defined.

(* ================================================================== *)
(** * Further properties of the string primitives *)
(* ================================================================== *)

Lemma startsWith_split (s pat : jsstring) :
  startsWith s pat = true -> s = pat ++ skipn (length pat) s.
Proof.
  revert s. induction pat as [|p pat IH]; intros s H; [reflexivity|].
  destruct s as [|c s]; [discriminate|]. simpl in H.
  apply andb_true_iff in H as [Hc H]. apply N.eqb_eq in Hc. subst c.
  simpl. f_equal. now apply IH.
Qed.

Lemma occursAt_split (text pat : jsstring) (k : nat) :
  occursAt text pat k = true ->
  text = firstn k text ++ pat ++ skipn (k + length pat) text.
Proof.
  unfold occursAt. intros H. apply startsWith_split in H.
  rewrite <- (firstn_skipn k text) at 1. f_equal.
  rewrite H at 1. f_equal. rewrite skipn_skipn. f_equal. lia.
Qed.

Lemma trimStart_split (s : jsstring) :
  exists a, s = a ++ trimStart s /\ blank a.
Proof.
  induction s as [|c s (a & Ha & Hblank)]; simpl.
  - exists []. split; [reflexivity | constructor].
  - destruct (isWhiteSpace c) eqn:Hc.
    + exists (c :: a). split; [simpl; now f_equal | now constructor].
    + exists []. split; [reflexivity | constructor].
Qed.

Lemma trimEnd_split (s : jsstring) :
  exists b, s = trimEnd s ++ b /\ blank b.
Proof.
  unfold trimEnd. destruct (trimStart_split (rev s)) as (a & Ha & Hblank).
  exists (rev a). split.
  - rewrite <- (rev_involutive s) at 1. rewrite Ha at 1. apply rev_app_distr.
  - now apply Forall_rev.
Qed.

(** [trim] removes a run of white space at each end, and nothing else. *)
Lemma trim_split (s : jsstring) :
  exists a b, s = a ++ trim s ++ b /\ blank a /\ blank b.
Proof.
  unfold trim.
  destruct (trimStart_split s) as (a & Ha & Hblanka).
  destruct (trimEnd_split (trimStart s)) as (b & Hb & Hblankb).
  exists a, b. split; [|split; assumption].
  rewrite Ha at 1. f_equal. exact Hb.
Qed.

(** White space in front of a text that starts with a visible character
    is all that [trimStart] removes. *)
Lemma trimStart_app_visible (a x : jsstring) (c : N) :
  isWhiteSpace c = false ->
  exists a0 a', a = a0 ++ a' /\ trimStart (a ++ c :: x) = a' ++ c :: x.
Proof.
  intros Hc. induction a as [|d a (a0 & a' & Ha & Htrim)]; simpl.
  - exists [], []. simpl. now rewrite Hc.
  - destruct (isWhiteSpace d).
    + exists (d :: a0), a'. split; [simpl; now f_equal | exact Htrim].
    + exists [], (d :: a). split; reflexivity.
Qed.

Lemma trimEnd_app_visible (x b : jsstring) (c : N) :
  isWhiteSpace c = false ->
  exists b' b0, b = b' ++ b0 /\ trimEnd ((x ++ [c]) ++ b) = (x ++ [c]) ++ b'.
Proof.
  intros Hc. unfold trimEnd.
  rewrite rev_app_distr, rev_app_distr. simpl.
  destruct (trimStart_app_visible (rev b) (rev x) c Hc) as (a0 & a' & Ha & Htrim).
  exists (rev a'), (rev a0). split.
  - rewrite <- (rev_involutive b), Ha. apply rev_app_distr.
  - rewrite Htrim. rewrite rev_app_distr. simpl.
    rewrite rev_involutive. reflexivity.
Qed.

Lemma startsWith_char (s : jsstring) (c : N) :
  startsWith s [c] = match s with
                     | x :: _ => N.eqb c x
                     | [] => false
                     end.
Proof. destruct s as [|x s]; simpl; [reflexivity | apply andb_true_r]. Qed.

(** [indexOf] of a character finds its first occurrence. *)
Lemma indexOf_char_sound (text : jsstring) (c : N) (k : nat) :
  indexOf text [c] = Some k ->
  exists pre post, text = pre ++ c :: post /\ length pre = k /\ ~ In c pre.
Proof.
  revert k. induction text as [|x text IH]; intros k; cbn [indexOf].
  - rewrite startsWith_char. discriminate.
  - rewrite startsWith_char. destruct (N.eqb c x) eqn:E.
    + intros [= <-]. apply N.eqb_eq in E. subst x.
      exists [], text. repeat split. intros [].
    + destruct (indexOf text [c]) as [j|]; [|discriminate].
      intros [= <-]. destruct (IH j eq_refl) as (pre & post & -> & Hlen & Hnotin).
      exists (x :: pre), post. repeat split; [simpl; now f_equal|].
      intros [-> | Hin]; [now rewrite N.eqb_refl in E | now apply Hnotin].
Qed.

Lemma indexOf_char_complete (pre post : jsstring) (c : N) :
  ~ In c pre -> indexOf (pre ++ c :: post) [c] = Some (length pre).
Proof.
  induction pre as [|x pre IH]; intros Hnotin; cbn [indexOf app].
  - rewrite startsWith_char, N.eqb_refl. reflexivity.
  - rewrite startsWith_char.
    destruct (N.eqb c x) eqn:E.
    + apply N.eqb_eq in E. subst x. elim Hnotin. now left.
    + rewrite IH; [reflexivity|]. intros Hin. apply Hnotin. now right.
Qed.

(** The position of the last occurrence, from the text around it. *)
Lemma lastIndexOf_at (pre marker post : jsstring) :
  (forall k, 0 < k <= length post -> occursAt (marker ++ post) marker k = false) ->
  lastIndexOf (pre ++ marker ++ post) marker = Some (length pre).
Proof.
  intros Hlast. apply lastIndexOf_spec. repeat split.
  - unfold occursAt. rewrite skipn_past_prefix by lia.
    rewrite Nat.sub_diag. simpl. apply startsWith_app.
  - rewrite !length_app. lia.
  - intros q Hq Hroom. unfold occursAt.
    rewrite skipn_past_prefix by lia.
    apply Hlast. rewrite !length_app in Hroom. lia.
Qed.

Lemma lastIndexOfFrom_absent (text pat : jsstring) (k : nat) :
  (forall q, q <= k -> occursAt text pat q = false) ->
  lastIndexOfFrom text pat k = None.
Proof.
  induction k as [|k IH]; intros H; simpl.
  - now rewrite (H 0) by lia.
  - rewrite (H (S k)) by lia. apply IH. intros q Hq. apply H. lia.
Qed.

Lemma noOccurrence_sound (text marker : jsstring) :
  noOccurrence text marker = true ->
  forall k, k <= length text -> occursAt text marker k = false.
Proof.
  unfold noOccurrence. rewrite forallb_forall. intros H k Hk.
  apply negb_true_iff, H, in_seq. lia.
Qed.

(* ================================================================== *)
(** * Further properties of the streaming response parser *)
(* ================================================================== *)

Lemma depth_nil : depth [] = 0%Z.
Proof. reflexivity. Qed.

Lemma depth_cons (c : N) (s : jsstring) :
  depth (c :: s)
  = ((if N.eqb c LBRACE then 1 else if N.eqb c RBRACE then -1 else 0) + depth s)%Z.
Proof.
  unfold depth, occurrences. cbn [filter].
  rewrite (N.eqb_sym LBRACE c), (N.eqb_sym RBRACE c).
  destruct (N.eqb c LBRACE) eqn:EL.
  - apply N.eqb_eq in EL. subst c. cbn [N.eqb RBRACE LBRACE Pos.eqb length]. lia.
  - destruct (N.eqb c RBRACE); cbn [length]; lia.
Qed.

Lemma depth_app (a b : jsstring) : depth (a ++ b) = (depth a + depth b)%Z.
Proof.
  induction a as [|c a IH]; [rewrite depth_nil; simpl; lia|].
  simpl app. rewrite !depth_cons, IH. lia.
Qed.

(** What the counter returns is the shortest run of characters that
    brings it to zero, and that run ends with a closing brace. *)
Lemma countBraces_sound (rest : jsstring) :
  forall (count : Z) (acc found : jsstring),
    (0 < count)%Z ->
    countBraces rest count acc = Some found ->
    exists pre post,
      rest = (pre ++ [RBRACE]) ++ post
      /\ found = acc ++ pre ++ [RBRACE]
      /\ (count + depth (pre ++ [RBRACE]) = 0)%Z
      /\ forall p q, pre ++ [RBRACE] = p ++ q -> q <> [] -> (0 < count + depth p)%Z.
Proof.
  induction rest as [|char rest IH]; intros count acc found Hpos; cbn [countBraces];
    [discriminate|].
  assert (Hstep : forall count',
    (0 < count')%Z ->
    (count' = count + (if N.eqb char LBRACE then 1
                       else if N.eqb char RBRACE then -1 else 0))%Z ->
    countBraces rest count' (acc ++ [char]) = Some found ->
    exists pre post,
      char :: rest = (pre ++ [RBRACE]) ++ post
      /\ found = acc ++ pre ++ [RBRACE]
      /\ (count + depth (pre ++ [RBRACE]) = 0)%Z
      /\ forall p q, pre ++ [RBRACE] = p ++ q -> q <> [] -> (0 < count + depth p)%Z).
  { intros count' Hpos' Hcount' H.
    destruct (IH count' (acc ++ [char]) found Hpos' H)
      as (pre & post & Hrest & Hfound & Hzero & Hopen).
    exists (char :: pre), post. repeat split.
    - simpl. now f_equal.
    - rewrite Hfound, <- app_assoc. reflexivity.
    - simpl app. rewrite depth_cons. lia.
    - intros p q Hpq Hq. destruct p as [|x p].
      + rewrite depth_nil. lia.
      + simpl in Hpq. injection Hpq as <- Hpq.
        rewrite depth_cons. specialize (Hopen p q Hpq Hq). lia. }
  destruct (N.eqb char LBRACE) eqn:EL.
  - apply Hstep; lia.
  - destruct (N.eqb char RBRACE) eqn:ER.
    + destruct (count - 1 =? 0)%Z eqn:Ez.
      * intros [= <-]. apply N.eqb_eq in ER. subst char.
        apply Z.eqb_eq in Ez.
        exists [], rest. repeat split.
        -- simpl app. rewrite depth_cons, depth_nil. cbn. lia.
        -- intros p q Hpq Hq. destruct p as [|x p].
           ++ rewrite depth_nil. lia.
           ++ destruct p; destruct q; try discriminate; now elim Hq.
      * apply Z.eqb_neq in Ez. apply Hstep; lia.
    + apply Hstep; lia.
Qed.

(** Conversely, a run that brings the counter to zero at its end, and
    not before, is what the counter returns, whatever follows it. *)
Lemma countBraces_complete (pre : jsstring) :
  forall (post : jsstring) (count : Z) (acc : jsstring),
    (0 < count)%Z ->
    (count + depth pre = 0)%Z ->
    (forall p q, pre = p ++ q -> q <> [] -> (0 < count + depth p)%Z) ->
    countBraces (pre ++ post) count acc = Some (acc ++ pre).
Proof.
  induction pre as [|char pre IH]; intros post count acc Hpos Hzero Hopen.
  - rewrite depth_nil in Hzero. lia.
  - simpl app. cbn [countBraces].
    rewrite depth_cons in Hzero.
    assert (Hnext : forall p q, pre = p ++ q -> q <> [] ->
              (0 < count + (if N.eqb char LBRACE then 1
                            else if N.eqb char RBRACE then -1 else 0)
                   + depth p)%Z).
    { intros p q Hpq Hq. specialize (Hopen (char :: p) q).
      rewrite depth_cons in Hopen. simpl in Hopen.
      rewrite Hpq in Hopen. specialize (Hopen eq_refl Hq). lia. }
    assert (Hrec : forall count',
      (count' = count + (if N.eqb char LBRACE then 1
                         else if N.eqb char RBRACE then -1 else 0))%Z ->
      pre <> [] ->
      countBraces (pre ++ post) count' (acc ++ [char]) = Some (acc ++ char :: pre)).
    { intros count' Hcount' Hne.
      replace (acc ++ char :: pre) with ((acc ++ [char]) ++ pre)
        by (rewrite <- app_assoc; reflexivity).
      apply IH.
      - specialize (Hnext [] pre eq_refl Hne). rewrite depth_nil in Hnext. lia.
      - lia.
      - intros p q Hpq Hq. specialize (Hnext p q Hpq Hq). lia. }
    destruct (N.eqb char LBRACE) eqn:EL.
    + apply Hrec; [lia|]. intros ->. rewrite depth_nil in Hzero. lia.
    + destruct (N.eqb char RBRACE) eqn:ER.
      * destruct (count - 1 =? 0)%Z eqn:Ez.
        -- apply Z.eqb_eq in Ez. destruct pre as [|x pre]; [reflexivity|].
           specialize (Hopen [char] (x :: pre) eq_refl).
           rewrite depth_cons, EL, ER, depth_nil in Hopen.
           assert (x :: pre <> []) by discriminate. specialize (Hopen H). lia.
        -- apply Z.eqb_neq in Ez. apply Hrec; [lia|].
           intros ->. rewrite depth_nil in Hzero. lia.
      * apply Hrec; [lia|]. intros ->. rewrite depth_nil in Hzero. lia.
Qed.

Lemma blank_no_brace (a : jsstring) : blank a -> ~ In LBRACE a.
Proof.
  unfold blank. rewrite Forall_forall. intros H Hin.
  specialize (H _ Hin). discriminate.
Qed.

(** Everything the scan establishes about a text it returns. *)
Lemma extractJson_inv (text marker found : jsstring) :
  extractJson text marker = Some found ->
  exists before gap pre after,
    text = before ++ marker ++ gap ++ found ++ after
    /\ found = LBRACE :: pre ++ [RBRACE]
    /\ ~ In LBRACE gap
    /\ (forall k, length before < k -> k + length marker <= length text ->
                  occursAt text marker k = false)
    /\ (1 + depth (pre ++ [RBRACE]) = 0)%Z
    /\ (forall p q, pre ++ [RBRACE] = p ++ q -> q <> [] -> (0 < 1 + depth p)%Z).
Proof.
  unfold extractJson, extractObject, substring.
  destruct (lastIndexOf text marker) as [markerPos|] eqn:Hpos; [|discriminate].
  apply lastIndexOf_spec in Hpos as (Hocc & Hroom & Hlater).
  pose proof (occursAt_split text marker markerPos Hocc) as Htext.
  set (post := skipn (markerPos + length marker) text) in *.
  destruct (trim_split post) as (a & b & Hpost & Hblanka & Hblankb).
  destruct (indexOf (trim post) [LBRACE]) as [start|] eqn:Hstart; [|discriminate].
  apply indexOf_char_sound in Hstart as (g & r & Hlp & Hlen & Hnotin).
  rewrite Hlp. subst start.
  replace (skipn (length g) (g ++ LBRACE :: r)) with (LBRACE :: r)
    by (rewrite skipn_app, skipn_all, Nat.sub_diag; reflexivity).
  rewrite scanLoop_ignores_strings. cbn [countBraces N.eqb LBRACE Pos.eqb app].
  intros H. apply countBraces_sound in H as (pre & post' & Hr & Hfound & Hzero & Hopen);
    [|lia].
  exists (firstn markerPos text), (a ++ g), pre, (post' ++ b).
  repeat split.
  - rewrite Htext at 1. f_equal. f_equal. rewrite Hpost, Hlp, Hr, Hfound.
    simpl. rewrite <- !app_assoc. simpl. rewrite <- !app_assoc. reflexivity.
  - exact Hfound.
  - intros Hin. apply in_app_or in Hin as [Hin | Hin];
      [now apply (blank_no_brace a) | now apply Hnotin].
  - intros k Hk Hk'. apply Hlater; [|assumption].
    rewrite length_firstn in Hk. lia.
  - exact Hzero.
  - exact Hopen.
Qed.

(** Where an extracted text lies: after the last occurrence of the
    marker, from the first opening brace that follows it. *)
Theorem extractJson_located (text marker found : jsstring) :
  extractJson text marker = Some found ->
  exists before gap after,
    text = before ++ marker ++ gap ++ found ++ after
    /\ ~ In LBRACE gap
    /\ forall k, length before < k -> k + length marker <= length text ->
                 occursAt text marker k = false.
Proof.
  intros H.
  apply extractJson_inv in H as (before & gap & pre & after & H1 & _ & H3 & H4 & _).
  exists before, gap, after. auto.
Qed.

Lemma extractJson_located_witness :
  exists before gap after,
    Demo.responseText
    = before ++ THREAD_MARKER ++ gap ++ jsq "{'id':'abc'}" ++ after
    /\ ~ In LBRACE gap
    /\ forall k, length before < k ->
                 k + length THREAD_MARKER <= length Demo.responseText ->
                 occursAt Demo.responseText THREAD_MARKER k = false.
Proof.
  apply (extractJson_located Demo.responseText THREAD_MARKER (jsq "{'id':'abc'}")).
  vm_compute. reflexivity.
Defined.

(** What an extracted text looks like: it starts with an opening brace,
    ends with a closing brace, and is one block of balanced braces, every
    brace counted, quoted or not. *)
Theorem extractJson_balanced (text marker found : jsstring) :
  extractJson text marker = Some found ->
  (exists body, found = LBRACE :: body ++ [RBRACE]) /\ balancedBlock found.
Proof.
  intros H.
  apply extractJson_inv in H
    as (before & gap & pre & after & _ & Hfound & _ & _ & Hzero & Hopen).
  split; [now exists pre|].
  subst found. split.
  - rewrite depth_cons. cbn [N.eqb LBRACE Pos.eqb]. lia.
  - intros k Hk. destruct k as [|k]; [lia|].
    cbn [firstn]. rewrite depth_cons. cbn [N.eqb LBRACE Pos.eqb].
    cbn [length] in Hk.
    specialize (Hopen (firstn k (pre ++ [RBRACE])) (skipn k (pre ++ [RBRACE]))).
    rewrite firstn_skipn in Hopen. apply Hopen; [reflexivity|].
    intros Hnil. apply (f_equal (@length N)) in Hnil.
    rewrite length_skipn in Hnil. simpl in Hnil. lia.
Qed.

Lemma extractJson_balanced_witness :
  (exists body, jsq "{'a':{'b':1}}" = LBRACE :: body ++ [RBRACE])
  /\ balancedBlock (jsq "{'a':{'b':1}}").
Proof.
  apply (extractJson_balanced (jsq "x new_message.json: y {'a':{'b':1}} z}")
                              MESSAGE_MARKER).
  vm_compute. reflexivity.
Defined.

Lemma balancedBlockb_sound (s : jsstring) :
  balancedBlockb s = true -> balancedBlock s.
Proof.
  unfold balancedBlockb, balancedBlock. intros H.
  apply andb_true_iff in H as [Hzero Hopen].
  split; [now apply Z.eqb_eq|].
  rewrite forallb_forall in Hopen. intros k Hk.
  apply Z.ltb_lt, Hopen, in_seq. lia.
Qed.

(** Completeness: a block of balanced braces that follows the last
    occurrence of the marker, with no opening brace in between, is what
    is extracted, whatever stands before the marker and after the
    block. *)
Theorem extractJson_complete (before marker gap body after : jsstring) :
  (forall k, 0 < k <= length (gap ++ (LBRACE :: body ++ [RBRACE]) ++ after) ->
             occursAt (marker ++ gap ++ (LBRACE :: body ++ [RBRACE]) ++ after)
                      marker k = false) ->
  ~ In LBRACE gap ->
  balancedBlock (LBRACE :: body ++ [RBRACE]) ->
  extractJson (before ++ marker ++ gap ++ (LBRACE :: body ++ [RBRACE]) ++ after)
              marker
  = Some (LBRACE :: body ++ [RBRACE]).
Proof.
  intros Hlast Hgap [Hzero Hopen].
  unfold extractJson. rewrite (lastIndexOf_at before marker _ Hlast).
  unfold substring. rewrite skipn_past_prefix by lia.
  replace (length before + length marker - length before) with (length marker) by lia.
  rewrite skipn_app, skipn_all, Nat.sub_diag. cbn [skipn app].
  unfold extractObject, trim.
  (* the white space removed in front is part of the gap *)
  destruct (trimStart_app_visible gap (body ++ [RBRACE] ++ after) LBRACE eq_refl)
    as (g0 & g & Hg & HtrimStart).
  replace (gap ++ LBRACE :: (body ++ [RBRACE]) ++ after)
    with (gap ++ LBRACE :: body ++ [RBRACE] ++ after)
    by (rewrite <- app_assoc; reflexivity).
  rewrite HtrimStart.
  (* the white space removed at the end is part of what follows the block *)
  replace (g ++ LBRACE :: body ++ [RBRACE] ++ after)
    with (((g ++ LBRACE :: body) ++ [RBRACE]) ++ after)
    by (rewrite <- !app_assoc; reflexivity).
  destruct (trimEnd_app_visible (g ++ LBRACE :: body) after RBRACE eq_refl)
    as (a & a0 & Ha & HtrimEnd).
  rewrite HtrimEnd.
  replace (((g ++ LBRACE :: body) ++ [RBRACE]) ++ a)
    with (g ++ LBRACE :: (body ++ [RBRACE]) ++ a)
    by (rewrite <- !app_assoc; reflexivity).
  assert (Hnotin : ~ In LBRACE g).
  { intros Hin. apply Hgap. rewrite Hg. apply in_or_app. now right. }
  rewrite (indexOf_char_complete g ((body ++ [RBRACE]) ++ a) LBRACE Hnotin).
  rewrite skipn_app, skipn_all, Nat.sub_diag. cbn [skipn app].
  rewrite scanLoop_ignores_strings. cbn [countBraces N.eqb LBRACE Pos.eqb app].
  rewrite depth_cons in Hzero. cbn [N.eqb LBRACE Pos.eqb] in Hzero.
  apply (countBraces_complete (body ++ [RBRACE]) a 1 [LBRACE]); [lia | lia |].
  intros p q Hpq Hq.
  specialize (Hopen (S (length p))).
  cbn [firstn length] in Hopen. rewrite Hpq in Hopen.
  rewrite firstn_app, firstn_all, Nat.sub_diag, firstn_0, app_nil_r in Hopen.
  rewrite depth_cons in Hopen. cbn [N.eqb LBRACE Pos.eqb] in Hopen.
  apply Hopen. rewrite length_app.
  destruct q; [now elim Hq | simpl; lia].
Qed.

Lemma extractJson_complete_witness :
  extractJson (jsq "thread.json: {'id':'old'} new_message.json:  reply "
               ++ jsq "{'reply':{'a':1}}" ++ jsq "  trailing } noise ")
              MESSAGE_MARKER
  = Some (jsq "{'reply':{'a':1}}").
Proof.
  apply (extractJson_complete (jsq "thread.json: {'id':'old'} ") MESSAGE_MARKER
           (jsq "  reply ") (jsq "'reply':{'a':1}") (jsq "  trailing } noise ")).
  - apply noLaterOccurrence_sound. vm_compute. reflexivity.
  - vm_compute. intuition discriminate.
  - apply balancedBlockb_sound. vm_compute. reflexivity.
Defined.

(** Without the marker in the text, nothing is extracted. *)
Theorem extractJson_no_marker (text marker : jsstring) :
  (forall k, k <= length text -> occursAt text marker k = false) ->
  extractJson text marker = None.
Proof.
  intros Habsent. unfold extractJson, lastIndexOf.
  destruct (length marker <=? length text); [|reflexivity].
  rewrite lastIndexOfFrom_absent; [reflexivity|].
  intros q Hq. apply Habsent. lia.
Qed.

Lemma extractJson_no_marker_witness :
  extractJson (jsq "thread.json: {'id':'abc'} and no message") MESSAGE_MARKER = None.
Proof.
  apply extractJson_no_marker. apply noOccurrence_sound. vm_compute. reflexivity.
Defined.

(* ================================================================== *)
(** * Further properties of the reply formatter *)
(* ================================================================== *)

Lemma trimStart_head (s : jsstring) (c : N) (t : jsstring) :
  trimStart s = c :: t -> isWhiteSpace c = false.
Proof.
  induction s as [|x s IH]; simpl; [discriminate|].
  destruct (isWhiteSpace x) eqn:Hx; [exact IH|].
  now intros [= <- _].
Qed.

Lemma trimStart_dropWhile (s : jsstring) : trimStart s = dropWhile isWhiteSpace s.
Proof.
  induction s as [|x s IH]; simpl; [reflexivity|].
  now destruct (isWhiteSpace x).
Qed.

Lemma dropWhile_length (p : N -> bool) (s : jsstring) :
  length (dropWhile p s) <= length s.
Proof.
  induction s as [|x s IH]; simpl; [lia|].
  destruct (p x); simpl; lia.
Qed.

(** What [trim] returns has no white space at either end. *)
Lemma trim_trimmed (s : jsstring) : trimmed (trim s).
Proof.
  unfold trimmed, trim. split.
  - intros c t H.
    destruct (trimEnd_split (trimStart s)) as (b & Hb & _).
    rewrite H in Hb. simpl in Hb. now apply trimStart_head in Hb.
  - intros t c H. unfold trimEnd in H.
    apply (f_equal (@rev N)) in H.
    rewrite rev_involutive, rev_app_distr in H. simpl in H.
    now apply trimStart_head in H.
Qed.

(** A string without white space at its ends is left alone by [trim]. *)
Lemma trim_id (s : jsstring) : trimmed s -> trim s = s.
Proof.
  intros [Hhead Hlast]. unfold trim.
  assert (Hstart : trimStart s = s).
  { destruct s as [|c t]; [reflexivity|]. simpl.
    now rewrite (Hhead c t eq_refl). }
  rewrite Hstart. unfold trimEnd.
  destruct (rev s) as [|c t] eqn:Hrev.
  - simpl. apply (f_equal (@rev N)) in Hrev. now rewrite rev_involutive in Hrev.
  - assert (Hs : s = rev t ++ [c]).
    { apply (f_equal (@rev N)) in Hrev. now rewrite rev_involutive in Hrev. }
    simpl. rewrite (Hlast (rev t) c Hs). now rewrite Hs.
Qed.

Lemma noAdjacentSpace_cons (c : N) (t : jsstring) :
  noAdjacentSpace (c :: t)
  = (match t with
     | d :: _ => (isWhiteSpace c = true -> isWhiteSpace d = false)
     | [] => True
     end /\ noAdjacentSpace t).
Proof. reflexivity. Qed.

Lemma noAdjacentSpace_app_r (a b : jsstring) :
  noAdjacentSpace (a ++ b) -> noAdjacentSpace b.
Proof.
  induction a as [|c a IH]; [intros H; exact H|].
  simpl app. rewrite noAdjacentSpace_cons. intros [_ H]. now apply IH.
Qed.

Lemma noAdjacentSpace_app_l (a b : jsstring) :
  noAdjacentSpace (a ++ b) -> noAdjacentSpace a.
Proof.
  induction a as [|c a IH]; [intros _; exact I|].
  simpl app. rewrite !noAdjacentSpace_cons. intros [Hc H].
  split; [|now apply IH].
  destruct a as [|d a]; [exact I | exact Hc].
Qed.

Lemma trim_noAdjacentSpace (s : jsstring) :
  noAdjacentSpace s -> noAdjacentSpace (trim s).
Proof.
  intros H. destruct (trim_split s) as (a & b & Hs & _).
  rewrite Hs in H. apply noAdjacentSpace_app_r in H.
  now apply noAdjacentSpace_app_l in H.
Qed.

(** A greedy run over single characters, followed by nothing, stops at
    the first character that is not of the kind. *)
Lemma greedyLoop_single (p : N -> bool)
      (step : jsstring -> captures -> continuation -> matchResult) :
  (forall s caps k,
      step s caps k = match s with
                      | x :: s' => if p x then k s' caps else None
                      | [] => None
                      end) ->
  forall fuel s caps,
    length s < fuel ->
    greedyLoop step (fun s' caps' => Some (s', caps')) fuel s caps
    = Some (dropWhile p s, caps).
Proof.
  intros Hstep. induction fuel as [|fuel IH]; intros s caps Hfuel; [lia|].
  cbn [greedyLoop]. rewrite Hstep.
  destruct s as [|x s1]; [reflexivity|].
  cbn [dropWhile]. destruct (p x); [|reflexivity].
  replace (length s1 <? length (x :: s1)) with true
    by (symmetry; apply Nat.ltb_lt; simpl; lia).
  rewrite IH by (simpl in Hfuel; lia). reflexivity.
Qed.

Lemma exec_spaces (s : jsstring) :
  exec re_spaces s
  = match s with
    | c :: t => if isWhiteSpace c then Some (trimStart t, []) else None
    | [] => None
    end.
Proof.
  destruct s as [|c t]; [reflexivity|].
  rewrite exec_spaces_cons. destruct (isWhiteSpace c); [|reflexivity].
  rewrite (greedyLoop_single isWhiteSpace (rmatch (Class isWhiteSpace)))
    by (reflexivity || lia).
  now rewrite trimStart_dropWhile.
Qed.

(** After [replace(/\s+/g, ' ')], no two white-space characters are side
    by side, and the result starts as the string does: with a space for
    white space, with the same character otherwise. *)
Lemma replace_spaces_shape (fuel : nat) (s : jsstring) :
  length s < fuel ->
  noAdjacentSpace (replaceLoop fuel re_spaces (template [Text (js " ")]) s)
  /\ match s with
     | [] => replaceLoop fuel re_spaces (template [Text (js " ")]) s = []
     | c :: _ =>
         exists o, replaceLoop fuel re_spaces (template [Text (js " ")]) s
                   = (if isWhiteSpace c then 32%N else c) :: o
     end.
Proof.
  revert s. induction fuel as [|fuel IH]; intros s Hfuel; [lia|].
  destruct s as [|c t]; [split; [exact I | reflexivity]|].
  cbn [replaceLoop]. rewrite exec_spaces.
  simpl in Hfuel. destruct (isWhiteSpace c) eqn:Hc.
  - pose proof (dropWhile_length isWhiteSpace t) as Hlen.
    rewrite <- trimStart_dropWhile in Hlen.
    replace (length (c :: t) - length (trimStart t))
      with (S (length t - length (trimStart t))) by (cbn [length]; lia).
    cbn [firstn].
    change (template [Text (js " ")] (c :: firstn (length t - length (trimStart t)) t) [])
      with [32%N].
    cbn [app].
    destruct (IH (trimStart t)) as [Hadj Hhead]; [lia|].
    split; [|eexists; reflexivity].
    rewrite noAdjacentSpace_cons.
    split; [|exact Hadj].
    destruct (trimStart t) as [|d r] eqn:Ht.
    + now rewrite Hhead.
    + destruct Hhead as [o ->]. intros _.
      apply trimStart_head in Ht. rewrite Ht. exact Ht.
  - destruct (IH t) as [Hadj Hhead]; [lia|].
    split; [|eexists; reflexivity].
    rewrite noAdjacentSpace_cons.
    split; [|exact Hadj].
    destruct (replaceLoop fuel re_spaces (template [Text (js " ")]) t);
      [exact I | congruence].
Qed.

Lemma htmlToPlain_shape (html : jsstring) :
  singleLine (htmlToPlain html)
  /\ noAdjacentSpace (htmlToPlain html)
  /\ trimmed (htmlToPlain html).
Proof.
  unfold htmlToPlain. repeat split.
  - apply replaceAll_spaces_singleLine.
  - apply trim_noAdjacentSpace. unfold replaceAll.
    apply replace_spaces_shape. lia.
  - apply trim_trimmed.
  - apply trim_trimmed.
Qed.

(** The text [htmlToPlain] returns is normalised: its only white space
    is the space character, never twice in a row, and never at either
    end. *)
Theorem htmlToPlain_normalised (html : jsstring) :
  singleLine (htmlToPlain html)
  /\ noAdjacentSpace (htmlToPlain html)
  /\ trimmed (htmlToPlain html).
Proof. apply htmlToPlain_shape. Qed.

Lemma noBlankRun_cons (c : N) (t : jsstring) :
  noBlankRun (c :: t) = (runLF (c :: t) <= 2 /\ noBlankRun t).
Proof. reflexivity. Qed.

Lemma runLF_cons (c : N) (t : jsstring) :
  runLF (c :: t) = if isLF c then S (runLF t) else 0.
Proof. reflexivity. Qed.

Lemma runLF_app_le (a b : jsstring) : a <> [] -> runLF a <= runLF (a ++ b).
Proof.
  induction a as [|c a IH]; intros Hne; [now elim Hne|].
  simpl app. rewrite !runLF_cons. destruct (isLF c); [|lia].
  destruct a as [|d a]; [simpl; lia|].
  apply le_n_S, IH. discriminate.
Qed.

Lemma noBlankRun_app_r (a b : jsstring) : noBlankRun (a ++ b) -> noBlankRun b.
Proof.
  induction a as [|c a IH]; [intros H; exact H|].
  simpl app. rewrite noBlankRun_cons. intros [_ H]. now apply IH.
Qed.

Lemma noBlankRun_app_l (a b : jsstring) : noBlankRun (a ++ b) -> noBlankRun a.
Proof.
  induction a as [|c a IH]; [intros _; exact I|].
  simpl app. rewrite !noBlankRun_cons. intros [Hc H].
  split; [|now apply IH].
  pose proof (runLF_app_le (c :: a) b). simpl app in H0.
  assert (c :: a <> []) by discriminate. specialize (H0 H1). lia.
Qed.

Lemma trim_noBlankRun (s : jsstring) : noBlankRun s -> noBlankRun (trim s).
Proof.
  intros H. destruct (trim_split s) as (a & b & Hs & _).
  rewrite Hs in H. apply noBlankRun_app_r in H.
  now apply noBlankRun_app_l in H.
Qed.

Lemma dropWhile_isLF_length (s : jsstring) :
  length (dropWhile isLF s) + runLF s = length s.
Proof.
  induction s as [|c s IH]; [reflexivity|].
  cbn [dropWhile]. rewrite runLF_cons. destruct (isLF c); simpl; lia.
Qed.

Lemma runLF_dropWhile (s : jsstring) : runLF (dropWhile isLF s) = 0.
Proof.
  induction s as [|c s IH]; [reflexivity|].
  cbn [dropWhile]. destruct (isLF c) eqn:E; [exact IH|].
  rewrite runLF_cons, E. reflexivity.
Qed.

Lemma rmatch_Char_step (c : N) (s : jsstring) (caps : captures) (k : continuation) :
  rmatch (Char c) s caps k
  = match s with
    | x :: s' => if N.eqb x c then k s' caps else None
    | [] => None
    end.
Proof. destruct s; reflexivity. Qed.

(** [/\n{3,}/] matches where three line breaks or more follow one
    another, and takes the whole run. *)
Lemma exec_newlines3 (s : jsstring) :
  exec re_newlines3 s
  = if 3 <=? runLF s then Some (dropWhile isLF s, []) else None.
Proof.
  unfold exec, re_newlines3, AtLeast3. cbn [rmatch].
  destruct s as [|a s]; [reflexivity|].
  rewrite runLF_cons. cbn [dropWhile]. unfold isLF at 1 2.
  destruct (N.eqb a LF); [|reflexivity].
  destruct s as [|b s]; [reflexivity|].
  rewrite runLF_cons. cbn [dropWhile]. unfold isLF at 1 2.
  destruct (N.eqb b LF); [|reflexivity].
  destruct s as [|c s]; [reflexivity|].
  rewrite runLF_cons. cbn [dropWhile]. unfold isLF at 1 2.
  destruct (N.eqb c LF); [|reflexivity].
  rewrite (greedyLoop_single isLF);
    [reflexivity | intros s0 caps k; destruct s0; reflexivity | lia].
Qed.

(** After [replace(/\n{3,}/g, '\n\n')] no three line breaks follow one
    another, and the result starts with no more line breaks than the
    string did. *)
Lemma replace_newlines_shape (fuel : nat) (s : jsstring) :
  length s < fuel ->
  noBlankRun (replaceLoop fuel re_newlines3 (template [Text (NL ++ NL)]) s)
  /\ runLF (replaceLoop fuel re_newlines3 (template [Text (NL ++ NL)]) s)
     <= runLF s.
Proof.
  revert s. induction fuel as [|fuel IH]; intros s Hfuel; [lia|].
  destruct s as [|x t]; [split; [exact I | reflexivity]|].
  cbn [replaceLoop]. rewrite exec_newlines3.
  simpl in Hfuel.
  destruct (3 <=? runLF (x :: t)) eqn:E.
  - apply Nat.leb_le in E.
    pose proof (dropWhile_isLF_length (x :: t)) as Hlen.
    destruct (firstn (length (x :: t) - length (dropWhile isLF (x :: t))) (x :: t))
      as [|m matched] eqn:Hm.
    + replace (length (x :: t) - length (dropWhile isLF (x :: t)))
        with (S (runLF (x :: t) - 1)) in Hm by lia.
      discriminate.
    + change (template [Text (NL ++ NL)] (m :: matched) []) with [LF; LF].
      cbn [app].
      destruct (IH (dropWhile isLF (x :: t))) as [Hfree Hrun];
        [cbn [length] in *; lia|].
      rewrite runLF_dropWhile in Hrun.
      rewrite runLF_cons in E.
      rewrite !noBlankRun_cons, !runLF_cons. cbn [isLF N.eqb LF Pos.eqb].
      repeat split; try assumption; lia.
  - apply Nat.leb_gt in E.
    destruct (IH t) as [Hfree Hrun]; [lia|].
    rewrite noBlankRun_cons, !runLF_cons. rewrite runLF_cons in E.
    destruct (isLF x); repeat split; try assumption; lia.
Qed.

Lemma htmlToMarkdown_shape (html : jsstring) :
  trimmed (htmlToMarkdown html) /\ noBlankRun (htmlToMarkdown html).
Proof.
  unfold htmlToMarkdown. cbv zeta. split.
  - apply trim_trimmed.
  - apply trim_noBlankRun. unfold replaceAll at 1.
    apply replace_newlines_shape. lia.
Qed.

(** The text [htmlToMarkdown] returns has no white space at either end
    and no run of three line breaks: paragraphs are one blank line apart
    at most. *)
Theorem htmlToMarkdown_tidy (html : jsstring) :
  trimmed (htmlToMarkdown html) /\ noBlankRun (htmlToMarkdown html).
Proof. apply htmlToMarkdown_shape. Qed.

(** A pattern that has to start with a character does not match where
    another character stands. *)
Lemma rmatch_firstChar (r : regex) (c : N) :
  firstChar r = Some c ->
  forall s caps k,
    match s with
    | x :: _ => N.eqb x c = false
    | [] => True
    end ->
    rmatch r s caps k = None.
Proof.
  induction r as [| d | p | r1 IH1 r2 IH2 | r1 IH1 r2 IH2 | r IH | r IH | n r IH];
    cbn [firstChar]; try discriminate; intros Hfirst s caps k Hs; cbn [rmatch].
  - injection Hfirst as ->. destruct s as [|x s]; [reflexivity|]. now rewrite Hs.
  - now apply IH1.
  - now apply IH.
Qed.

(** Where the character a pattern starts with does not occur, the
    replacement changes nothing. *)
Lemma replaceAll_absent (c : N) (r : regex) (f : replacer) (s : jsstring) :
  firstChar r = Some c -> ~ In c s -> replaceAll r f s = s.
Proof.
  intros Hfirst. unfold replaceAll. generalize (S (length s)) as fuel.
  intros fuel. revert s.
  induction fuel as [|fuel IH]; intros s Hnotin; [reflexivity|].
  cbn [replaceLoop]. unfold exec.
  rewrite (rmatch_firstChar r c Hfirst).
  - destruct s as [|x t]; [reflexivity|]. f_equal. apply IH.
    intros Hin. apply Hnotin. now right.
  - destruct s as [|x t]; [exact I|].
    apply N.eqb_neq. intros ->. apply Hnotin. now left.
Qed.

Lemma replaceAll_newlines_id (f : replacer) (s : jsstring) :
  noBlankRun s -> replaceAll re_newlines3 f s = s.
Proof.
  unfold replaceAll. generalize (S (length s)) as fuel.
  intros fuel. revert s.
  induction fuel as [|fuel IH]; intros s Hfree; [reflexivity|].
  cbn [replaceLoop]. rewrite exec_newlines3.
  destruct s as [|x t]; [reflexivity|].
  rewrite noBlankRun_cons in Hfree. destruct Hfree as [Hrun Hfree].
  replace (3 <=? runLF (x :: t)) with false
    by (symmetry; apply Nat.leb_gt; lia).
  f_equal. now apply IH.
Qed.

Lemma htmlToMarkdown_unmarked (html : jsstring) :
  ~ In LT html -> ~ In AMP html -> noBlankRun html ->
  htmlToMarkdown html = trim html.
Proof.
  intros Hlt Hamp Hfree. unfold htmlToMarkdown. cbv zeta.
  rewrite (replaceAll_absent LT re_header _ html eq_refl Hlt).
  rewrite (replaceAll_absent LT (element "strong") _ html eq_refl Hlt).
  rewrite (replaceAll_absent LT (element "em") _ html eq_refl Hlt).
  rewrite (replaceAll_absent LT re_codehilite _ html eq_refl Hlt).
  rewrite (replaceAll_absent LT (element "code") _ html eq_refl Hlt).
  rewrite (replaceAll_absent LT (Lit (js "<ol>")) _ html eq_refl Hlt).
  rewrite (replaceAll_absent LT (Lit (js "</ol>")) _ html eq_refl Hlt).
  rewrite (replaceAll_absent LT (Lit (js "<ul>")) _ html eq_refl Hlt).
  rewrite (replaceAll_absent LT (Lit (js "</ul>")) _ html eq_refl Hlt).
  rewrite (replaceAll_absent LT (element "li") _ html eq_refl Hlt).
  rewrite (replaceAll_absent LT (Lit (js "<p></p>")) _ html eq_refl Hlt).
  rewrite (replaceAll_absent LT (element "p") _ html eq_refl Hlt).
  rewrite (replaceAll_absent LT re_br _ html eq_refl Hlt).
  rewrite (replaceAll_absent LT re_tag _ html eq_refl Hlt).
  rewrite (replaceAll_absent AMP (Lit (js "&lt;")) _ html eq_refl Hamp).
  rewrite (replaceAll_absent AMP (Lit (js "&gt;")) _ html eq_refl Hamp).
  rewrite (replaceAll_absent AMP (Lit (js "&quot;")) _ html eq_refl Hamp).
  rewrite (replaceAll_absent AMP (Lit (js "&#x27;")) _ html eq_refl Hamp).
  rewrite (replaceAll_absent AMP (Lit (js "&amp;")) _ html eq_refl Hamp).
  rewrite (replaceAll_newlines_id _ html Hfree).
  reflexivity.
Qed.

(** Text without markup passes through [htmlToMarkdown] untouched but
    for the white space at its ends: no [<], no [&] and no run of three
    line breaks leave nothing to rewrite. *)
Theorem htmlToMarkdown_plain_text (html : jsstring) :
  ~ In LT html -> ~ In AMP html -> noBlankRun html ->
  htmlToMarkdown html = trim html.
Proof. apply htmlToMarkdown_unmarked. Qed.

Lemma htmlToMarkdown_plain_text_witness :
  htmlToMarkdown (js " 2 > 1, said she." ++ NL ++ NL ++ js "The end. ")
  = js "2 > 1, said she." ++ NL ++ NL ++ js "The end.".
Proof.
  rewrite htmlToMarkdown_plain_text.
  - vm_compute. reflexivity.
  - vm_compute. intuition discriminate.
  - vm_compute. intuition discriminate.
  - vm_compute. repeat split; lia.
Defined.

(** Formatting twice: a markdown text in which no [<] and no [&] is
    left is a fixed point of [htmlToMarkdown]. *)
Theorem htmlToMarkdown_idempotent (html : jsstring) :
  ~ In LT (htmlToMarkdown html) -> ~ In AMP (htmlToMarkdown html) ->
  htmlToMarkdown (htmlToMarkdown html) = htmlToMarkdown html.
Proof.
  intros Hlt Hamp.
  destruct (htmlToMarkdown_shape html) as [Htrim Hfree].
  rewrite (htmlToMarkdown_unmarked _ Hlt Hamp Hfree).
  now apply trim_id.
Qed.

Lemma htmlToMarkdown_idempotent_witness :
  htmlToMarkdown (htmlToMarkdown (js "<p>Hello <strong>world</strong></p>"))
  = htmlToMarkdown (js "<p>Hello <strong>world</strong></p>").
Proof.
  apply htmlToMarkdown_idempotent; vm_compute; intuition discriminate.
Defined.

(** On a normalised string, [replace(/\s+/g, ' ')] changes nothing. *)
Lemma replace_spaces_id (fuel : nat) (s : jsstring) :
  length s < fuel ->
  singleLine s -> noAdjacentSpace s ->
  replaceLoop fuel re_spaces (template [Text (js " ")]) s = s.
Proof.
  revert s. induction fuel as [|fuel IH]; intros s Hfuel Hline Hadj; [lia|].
  destruct s as [|c t]; [reflexivity|].
  cbn [replaceLoop]. rewrite exec_spaces.
  simpl in Hfuel. rewrite noAdjacentSpace_cons in Hadj. destruct Hadj as [Hc Hadj].
  inversion Hline as [|? ? Hspace Hline']; subst.
  destruct (isWhiteSpace c) eqn:Hws.
  - assert (Ht : trimStart t = t).
    { destruct t as [|d t']; [reflexivity|]. simpl. now rewrite (Hc eq_refl). }
    rewrite Ht.
    replace (length (c :: t) - length t) with 1 by (cbn [length]; lia).
    cbn [firstn].
    change (template [Text (js " ")] [c] []) with [32%N]. cbn [app].
    rewrite (Hspace eq_refl). f_equal. apply IH; [lia | assumption | assumption].
  - f_equal. apply IH; [lia | assumption | assumption].
Qed.

Lemma singleLine_no_LF (s : jsstring) : singleLine s -> ~ In LF s.
Proof.
  unfold singleLine. rewrite Forall_forall. intros H Hin.
  specialize (H LF Hin eq_refl). discriminate.
Qed.

(** Formatting twice: a plain text in which no [<] is left is a fixed
    point of [htmlToPlain]. *)
Theorem htmlToPlain_idempotent (html : jsstring) :
  ~ In LT (htmlToPlain html) ->
  htmlToPlain (htmlToPlain html) = htmlToPlain html.
Proof.
  intros Hlt.
  destruct (htmlToPlain_shape html) as (Hline & Hadj & Htrim).
  set (out := htmlToPlain html) in *.
  unfold htmlToPlain at 1. cbv zeta.
  rewrite (replaceAll_absent LT re_block _ out eq_refl Hlt).
  rewrite (replaceAll_absent LT re_br _ out eq_refl Hlt).
  rewrite (replaceAll_absent LT (element "li") _ out eq_refl Hlt).
  rewrite (replaceAll_absent LT re_tag _ out eq_refl Hlt).
  rewrite (replaceAll_absent LF re_newlines3 _ out eq_refl (singleLine_no_LF out Hline)).
  unfold replaceAll. rewrite replace_spaces_id by (assumption || lia).
  now apply trim_id.
Qed.

Lemma htmlToPlain_idempotent_witness :
  htmlToPlain (htmlToPlain (js "<ul><li>a &amp; b</li><li>c</li></ul>"))
  = htmlToPlain (js "<ul><li>a &amp; b</li><li>c</li></ul>").
Proof.
  apply htmlToPlain_idempotent. vm_compute. intuition discriminate.
Defined.

(* ================================================================== *)
(** * Further properties of the model list and the credentials *)
(* ================================================================== *)

Lemma str_eqb_refl (s : jsstring) : str_eqb s s = true.
Proof. induction s as [|c s IH]; simpl; [reflexivity | now rewrite N.eqb_refl]. Qed.

Lemma trim_sublist (s : jsstring) (c : N) : In c (trim s) -> In c s.
Proof.
  intros H. destruct (trim_split s) as (a & b & Hs & _).
  rewrite Hs. apply in_or_app. right. apply in_or_app. now left.
Qed.

Lemma splitOn_pieces (sep : N) (s : jsstring) :
  Forall (fun piece => ~ In sep piece) (splitOn sep s).
Proof.
  induction s as [|c s IH]; simpl.
  - constructor; [intros [] | constructor].
  - destruct (N.eqb c sep) eqn:E.
    + constructor; [intros [] | exact IH].
    + destruct (splitOn sep s) as [|first rest]; constructor.
      * intros [-> | []]. now rewrite N.eqb_refl in E.
      * constructor.
      * inversion IH as [|? ? Hfirst Hrest]; subst.
        intros [-> | Hin]; [now rewrite N.eqb_refl in E | now apply Hfirst].
      * now inversion IH.
Qed.

Lemma splitOn_whole (sep : N) (s : jsstring) :
  ~ In sep s -> splitOn sep s = [s].
Proof.
  induction s as [|c s IH]; intros Hnotin; simpl; [reflexivity|].
  destruct (N.eqb c sep) eqn:E.
  - apply N.eqb_eq in E. subst c. elim Hnotin. now left.
  - rewrite IH; [reflexivity|]. intros Hin. apply Hnotin. now right.
Qed.

Lemma splitOn_app (sep : N) (s rest : jsstring) :
  ~ In sep s -> splitOn sep (s ++ sep :: rest) = s :: splitOn sep rest.
Proof.
  induction s as [|c s IH]; intros Hnotin; simpl.
  - now rewrite N.eqb_refl.
  - destruct (N.eqb c sep) eqn:E.
    + apply N.eqb_eq in E. subst c. elim Hnotin. now left.
    + rewrite IH; [reflexivity|]. intros Hin. apply Hnotin. now right.
Qed.

(** Splitting what [join] put together gives the parts back, when no
    part holds the separator. *)
Lemma splitOn_join (sep : N) (parts : list jsstring) :
  parts <> [] ->
  Forall (fun piece => ~ In sep piece) parts ->
  splitOn sep (join [sep] parts) = parts.
Proof.
  induction parts as [|p parts IH]; intros Hne Hparts; [now elim Hne|].
  inversion Hparts as [|? ? Hp Hrest]; subst.
  destruct parts as [|q parts].
  - simpl. now apply splitOn_whole.
  - change (join [sep] (p :: q :: parts)) with (p ++ sep :: join [sep] (q :: parts)).
    rewrite splitOn_app by assumption. f_equal. apply IH; [discriminate | assumption].
Qed.

(** Every model of the allow-list is a name: not empty, without white
    space at its ends, without a comma. *)
Theorem getAvailableModels_entries (w : World) (availableModels : list jsstring)
        (m : jsstring) :
  getAvailableModels w = inr availableModels ->
  In m availableModels ->
  m <> [] /\ trimmed m /\ ~ In COMMA m.
Proof.
  unfold getAvailableModels.
  destruct (KAGI_MODEL_LIST (env w)) as [[|c t]|]; try discriminate.
  intros [= <-] Hin.
  apply filter_In in Hin as [Hin Hlen].
  apply in_map_iff in Hin as (piece & <- & Hpiece).
  repeat split.
  - intros Hnil. rewrite Hnil in Hlen. discriminate.
  - apply trim_trimmed.
  - apply trim_trimmed.
  - intros Hcomma. apply trim_sublist in Hcomma.
    pose proof (splitOn_pieces COMMA (c :: t)) as Hpieces.
    rewrite Forall_forall in Hpieces. now apply (Hpieces piece).
Qed.

Lemma getAvailableModels_entries_witness :
  js "claude-4-sonnet" <> []
  /\ trimmed (js "claude-4-sonnet")
  /\ ~ In COMMA (js "claude-4-sonnet").
Proof.
  apply (getAvailableModels_entries
           (Demo.world
              (mkEnv None (Some (js " o3-pro , claude-4-sonnet ,, gemini-2-5-pro,"))
                     None None None)
              [])
           [js "o3-pro"; js "claude-4-sonnet"; js "gemini-2-5-pro"]).
  - vm_compute. reflexivity.
  - right. left. reflexivity.
Defined.

(** Round trip: a list of names written with commas between them is
    read back as it was. *)
Theorem getAvailableModels_join (w : World) (models : list jsstring) :
  models <> [] ->
  Forall (fun m => m <> [] /\ trimmed m /\ ~ In COMMA m) models ->
  KAGI_MODEL_LIST (env w) = Some (join [COMMA] models) ->
  getAvailableModels w = inr models.
Proof.
  intros Hne Hmodels Henv. unfold getAvailableModels. rewrite Henv.
  assert (Hsplit : splitOn COMMA (join [COMMA] models) = models).
  { apply splitOn_join; [assumption|].
    eapply Forall_impl; [|exact Hmodels]. now intros m (_ & _ & H). }
  assert (Hjoin : join [COMMA] models <> []).
  { intros Hnil. rewrite Hnil in Hsplit. simpl in Hsplit.
    rewrite <- Hsplit in Hmodels. inversion Hmodels as [|? ? (Hm & _) _].
    now apply Hm. }
  destruct (join [COMMA] models) as [|c t] eqn:Ejoin; [now elim Hjoin|].
  rewrite Hsplit. f_equal.
  clear Hsplit Hjoin Ejoin Henv Hne.
  induction models as [|m models IH]; [reflexivity|].
  inversion Hmodels as [|? ? (Hm & Htrim & _) Hrest]; subst.
  simpl. rewrite (trim_id m Htrim).
  destruct m as [|x m]; [now elim Hm|]. simpl. f_equal. now apply IH.
Qed.

Lemma getAvailableModels_join_witness :
  getAvailableModels
    (Demo.world (mkEnv None (Some (js "o3-pro,claude-4-sonnet")) None None None) [])
  = inr [js "o3-pro"; js "claude-4-sonnet"].
Proof.
  apply getAvailableModels_join.
  - discriminate.
  - repeat constructor; try discriminate;
      try (intros c t [= <- _]; reflexivity);
      try (vm_compute; intuition discriminate).
    + intros t c H. apply (f_equal (@rev N)) in H.
      rewrite rev_app_distr in H. vm_compute in H. now injection H as <- _.
    + intros t c H. apply (f_equal (@rev N)) in H.
      rewrite rev_app_distr in H. vm_compute in H. now injection H as <- _.
  - reflexivity.
Defined.

(** Without a configured default, the default model is the first entry
    of the allow-list, which model validation accepts; it is undefined
    when the list has no entry. *)
Theorem getDefaultModel_first (w : World) (availableModels : list jsstring) :
  nonEmpty (KAGI_DEFAULT_MODEL (env w)) = false ->
  getAvailableModels w = inr availableModels ->
  getDefaultModel w = inr (hd_error availableModels)
  /\ (availableModels <> [] ->
      includes availableModels (hd_error availableModels) = true).
Proof.
  intros Hdefault Hmodels. unfold getDefaultModel. rewrite Hmodels.
  split.
  - destruct (KAGI_DEFAULT_MODEL (env w)) as [[|c t]|]; try reflexivity.
    discriminate.
  - intros Hne. destruct availableModels as [|m rest]; [now elim Hne|].
    simpl. now rewrite str_eqb_refl.
Qed.

Lemma getDefaultModel_first_witness :
  getDefaultModel (Demo.world Demo.environment []) = inr (Some (js "a"))
  /\ ([js "a"; js "b"] <> [] -> includes [js "a"; js "b"] (Some (js "a")) = true).
Proof.
  apply (getDefaultModel_first (Demo.world Demo.environment []) [js "a"; js "b"]);
    vm_compute; reflexivity.
Defined.

(** A configured default is returned as it is, with no look at the
    allow-list: not even whether the list is set. *)
Theorem getDefaultModel_configured (w : World) (d : jsstring) :
  KAGI_DEFAULT_MODEL (env w) = Some d -> d <> [] ->
  getDefaultModel w = inr (Some d).
Proof.
  intros Hd Hne. unfold getDefaultModel. rewrite Hd.
  destruct d; [now elim Hne | reflexivity].
Qed.

Lemma getDefaultModel_configured_witness :
  getDefaultModel
    (Demo.world (mkEnv (Some (js "gpt")) None None None None) [])
  = inr (Some (js "gpt")).
Proof. apply getDefaultModel_configured; [reflexivity | discriminate]. Defined.

Lemma isValidTokenFormat_nonEmpty (token : jsstring) :
  isValidTokenFormat token = true -> nonEmpty (Some token) = true.
Proof.
  unfold isValidTokenFormat. intros H.
  destruct token as [|c t]; [discriminate | reflexivity].
Qed.

(** A usable token in the environment wins: the result is that token,
    trimmed, and the token file is not looked at, readable or not. *)
Theorem resolveToken_environment_first (w : World) (envToken : jsstring) :
  KAGI_SESSION_TOKEN (env w) = Some envToken ->
  isValidTokenFormat envToken = true ->
  resolveToken w = inr (trim envToken).
Proof.
  intros Henv Hvalid. unfold resolveToken. rewrite Henv.
  now rewrite (isValidTokenFormat_nonEmpty envToken Hvalid), Hvalid.
Qed.

Lemma resolveToken_environment_first_witness :
  resolveToken
    {| env := mkEnv None None None (Some (js "  s3cret ")) None;
       tokenFile := ReadFailure (js "EACCES: permission denied");
       fetch := fun _ => FetchRejected NoPrompt;
       JSON_parse := Demo.parse;
       uuidv4 := fun _ => [] |}
  = inr (js "s3cret").
Proof.
  rewrite (resolveToken_environment_first _ (js "  s3cret ")).
  - vm_compute. reflexivity.
  - reflexivity.
  - vm_compute. reflexivity.
Defined.

Lemma trim_idempotent (s : jsstring) : trim (trim s) = trim s.
Proof. apply trim_id, trim_trimmed. Qed.

(** Without a usable token in the environment (unset, or blank), the
    token file decides: its trimmed content when that is not empty, no
    token when the file is missing or blank, and the read error
    otherwise. *)
Theorem resolveToken_file (w : World) :
  (forall envToken, KAGI_SESSION_TOKEN (env w) = Some envToken ->
                    isValidTokenFormat envToken = false) ->
  resolveToken w
  = match tokenFile w with
    | FileContent content =>
        match trim content with
        | [] => inl NoValidToken
        | token => inr token
        end
    | ENOENT => inl NoValidToken
    | ReadFailure msg => inl (TokenFileError msg)
    end.
Proof.
  intros Henv. unfold resolveToken.
  assert (Hfile :
    match readTokenFromFile w with
    | inl e => inl e
    | inr fileToken =>
        if nonEmpty fileToken
           && isValidTokenFormat (match fileToken with Some t => t | None => [] end)
        then inr (match fileToken with Some t => t | None => [] end)
        else inl NoValidToken
    end
    = match tokenFile w with
      | FileContent content =>
          match trim content with
          | [] => inl NoValidToken
          | token => inr token
          end
      | ENOENT => inl NoValidToken
      | ReadFailure msg => inl (TokenFileError msg)
      end).
  { unfold readTokenFromFile. destruct (tokenFile w) as [content| |msg];
      try reflexivity.
    destruct (trim content) as [|c t] eqn:Etrim; [reflexivity|].
    cbn [nonEmpty andb]. unfold isValidTokenFormat.
    rewrite <- Etrim, trim_idempotent, Etrim. reflexivity. }
  destruct (KAGI_SESSION_TOKEN (env w)) as [envToken|]; [|exact Hfile].
  rewrite (Henv envToken eq_refl), andb_false_r. exact Hfile.
Qed.

Lemma resolveToken_file_witness :
  resolveToken
    {| env := mkEnv None None None (Some (js "   ")) None;
       tokenFile := FileContent (js "from-file" ++ NL);
       fetch := fun _ => FetchRejected NoPrompt;
       JSON_parse := Demo.parse;
       uuidv4 := fun _ => [] |}
  = inr (js "from-file").
Proof.
  rewrite resolveToken_file.
  - vm_compute. reflexivity.
  - intros envToken [= <-]. vm_compute. reflexivity.
Defined.

Lemma resolveToken_shape (w : World) (token : jsstring) :
  resolveToken w = inr token -> token <> [] /\ trimmed token.
Proof.
  intros H. split.
  - apply resolveToken_nonEmpty in H. intros ->. discriminate.
  - revert H. unfold resolveToken.
    assert (Hfile :
      match readTokenFromFile w with
      | inl e => inl e
      | inr fileToken =>
          if nonEmpty fileToken
             && isValidTokenFormat (match fileToken with Some t => t | None => [] end)
          then inr (match fileToken with Some t => t | None => [] end)
          else inl NoValidToken
      end = inr token -> trimmed token).
    { unfold readTokenFromFile. destruct (tokenFile w) as [content| |msg];
        try discriminate.
      destruct (trim content) as [|c t] eqn:Etrim; [discriminate|].
      destruct (nonEmpty (Some (c :: t)) && isValidTokenFormat (c :: t));
        [|discriminate].
      intros [= <-]. rewrite <- Etrim. apply trim_trimmed. }
    destruct (KAGI_SESSION_TOKEN (env w)) as [envToken|]; [|exact Hfile].
    destruct (nonEmpty (Some envToken) && isValidTokenFormat envToken);
      [|exact Hfile].
    intros [= <-]. apply trim_trimmed.
Qed.

(** A resolved token is never empty and has no white space at its
    ends. *)
Theorem resolveToken_trimmed (w : World) (token : jsstring) :
  resolveToken w = inr token -> token <> [] /\ trimmed token.
Proof. apply resolveToken_shape. Qed.

Lemma resolveToken_trimmed_witness :
  js "session-token" <> [] /\ trimmed (js "session-token").
Proof.
  apply (resolveToken_trimmed (Demo.world Demo.environment [])).
  vm_compute. reflexivity.
Defined.

(* ================================================================== *)
(** * Further properties of the tool *)
(* ================================================================== *)

(** The handling of a response falls into two independent parts: the
    thread document acts on the store, the message document gives the
    result. *)
Lemma receive_eq (w : World) (text fmt : jsstring) (st : Store) :
  receive w text fmt st = (replyOf w text fmt, threadUpdate w text st).
Proof.
  unfold receive, replyOf, threadUpdate. cbv zeta.
  unfold bind at 1.
  assert (Hthread :
    (if nonEmpty (extractJson text THREAD_MARKER)
     then tryCatch
            (threadData <- lift (JSON_parse w
                                   match extractJson text THREAD_MARKER with
                                   | Some t => t
                                   | None => []
                                   end) ;;
             id <- lift (getProp threadData (js "id")) ;;
             when (truthy id) (setThreadId id))
            (fun error => console_warn error)
     else ret tt) st
    = (inr tt, threadUpdate w text st)).
  { unfold threadUpdate. cbv zeta.
    destruct (nonEmpty (extractJson text THREAD_MARKER)); [|reflexivity].
    unfold tryCatch, bind, lift, when, setThreadId, console_warn, modify, ret.
    destruct (JSON_parse w _) as [e|threadData]; [reflexivity|].
    destruct (getProp threadData (js "id")) as [e|id]; [reflexivity|].
    destruct (truthy id); reflexivity. }
  unfold threadUpdate in Hthread. cbv zeta in Hthread. rewrite Hthread.
  unfold bind, when, tryCatch, lift, throw, ret.
  destruct (negb (nonEmpty (extractJson text MESSAGE_MARKER))); [reflexivity|].
  destruct (JSON_parse w
              match extractJson text MESSAGE_MARKER with
              | Some t => t
              | None => []
              end) as [e|messageData]; [reflexivity|].
  destruct (getProp messageData (js "state")) as [e|state]; [reflexivity|].
  destruct (isString state (js "done")); [|reflexivity].
  destruct (getProp messageData (js "reply")) as [e|reply]; [reflexivity|].
  destruct (truthy reply); [|reflexivity].
  cbn [andb]. now destruct (formatResponse reply fmt).
Qed.

Lemma send_store (w : World) (req : Request) (st st' : Store) (r : exn + jsstring) :
  send w req st = (r, st') -> st' = logged req st.
Proof.
  unfold send, bind, modify, throw, lift, logged.
  destruct (fetch w req) as [e|status statusText text].
  - now intros [= <- <-].
  - destruct (negb ((200 <=? status)%N && (status <=? 299)%N)).
    + destruct ((status =? 401)%N || (status =? 403)%N); now intros [= <- <-].
    + now intros [= <- <-].
Qed.

(** A call that gets a response: its result is what the message
    document comes to, its store what the thread document makes of it. *)
Lemma kagiAssistant_responded (args : Args) (w : World) (st st2 : Store)
      (text : jsstring) :
  responded args w st text st2 ->
  kagiAssistant args w st
  = (settle (replyOf w text (orDefault (format args) (js "markdown"))),
     threadUpdate w text st2).
Proof.
  intros (m & req & st1 & Hm & Hprep & Hsend).
  rewrite kagiAssistant_eq, Hm, exchange_eq, Hprep, Hsend, receive_eq.
  now destruct (replyOf w text _).
Qed.

Lemma prepare_fails_unchanged (w : World) (p : jsstring) (nc : bool)
      (m : option jsstring) (ia : bool) (st st' : Store) (e : exn) :
  prepare w p nc m ia st = (inl e, st') -> st' = st.
Proof.
  rewrite prepare_eq.
  destruct (negb (nonEmpty (Some p))); [now intros [= _ <-]|].
  destruct (getEnvironmentConfig w); [now intros [= _ <-]|].
  destruct (getAvailableModels w); [now intros [= _ <-]|].
  destruct (negb (nonEmpty (KAGI_SEARCH_COOKIE (env w)))); [now intros [= _ <-]|].
  destruct (negb (includes l m)); [now intros [= _ <-]|].
  cbv zeta.
  destruct (truthy (threadId (if nc then resetSession st else st))); discriminate.
Qed.

(** A call refused by a check changes nothing: no request is sent, no
    identifier is drawn, and the session is not reset, even when a new
    conversation was asked for. *)
Theorem refused_call_changes_nothing (args : Args) (w : World) (st st' : Store)
        (m : option jsstring) (e : exn) :
  modelParameter args w = inr m ->
  prepare w (prompt args) (orDefault (new_conversation args) true) m
          (orDefault (internet_access args) true) st = (inl e, st') ->
  kagiAssistant args w st = (Resolved (VStr (formatError e)), st).
Proof.
  intros Hm Hprep.
  pose proof (prepare_fails_unchanged _ _ _ _ _ _ _ _ Hprep) as ->.
  now rewrite kagiAssistant_eq, Hm, exchange_eq, Hprep.
Qed.

Lemma refused_call_changes_nothing_witness :
  threadId Demo.continued = VStr (js "abc")
  /\ kagiAssistant (Demo.args "" true "a")
                   (Demo.world Demo.environment Demo.responseText) Demo.continued
     = (Resolved (VStr (js "Error: Assistant called with no prompt.")),
        Demo.continued).
Proof.
  split; [vm_compute; reflexivity|].
  apply (refused_call_changes_nothing
           (Demo.args "" true "a")
           (Demo.world Demo.environment Demo.responseText)
           Demo.continued Demo.continued (Some (js "a")) NoPrompt);
    vm_compute; reflexivity.
Defined.

Lemma getEnvironmentConfig_errors (w : World) (e : exn) :
  getEnvironmentConfig w = inl e ->
  e = NoValidToken \/ exists msg, e = TokenFileError msg.
Proof.
  unfold getEnvironmentConfig, resolveToken.
  assert (Hfile :
    match readTokenFromFile w with
    | inl e => inl e
    | inr fileToken =>
        if nonEmpty fileToken
           && isValidTokenFormat (match fileToken with Some t => t | None => [] end)
        then inr (match fileToken with Some t => t | None => [] end)
        else inl NoValidToken
    end = inl e -> e = NoValidToken \/ exists msg, e = TokenFileError msg).
  { unfold readTokenFromFile. destruct (tokenFile w) as [content| |msg].
    - destruct (trim content) as [|c t].
      + intros [= <-]. now left.
      + destruct (nonEmpty (Some (c :: t)) && isValidTokenFormat (c :: t));
          [discriminate | intros [= <-]; now left].
    - intros [= <-]. now left.
    - intros [= <-]. right. now exists msg. }
  destruct (KAGI_SESSION_TOKEN (env w)) as [envToken|].
  - destruct (nonEmpty (Some envToken) && isValidTokenFormat envToken).
    + discriminate.
    + destruct (match readTokenFromFile w with inl _ => _ | inr _ => _ end) eqn:E;
        [|discriminate].
      intros [= <-]. now apply Hfile.
  - destruct (match readTokenFromFile w with inl _ => _ | inr _ => _ end) eqn:E;
      [|discriminate].
    intros [= <-]. now apply Hfile.
Qed.

(** The errors the checks can raise.  The one of line 236-238
    ("KAGI_SESSION_TOKEN environment variable not set") is not among
    them: a missing token is reported by [resolveToken] before. *)
Theorem prepare_errors (w : World) (p : jsstring) (nc : bool)
        (m : option jsstring) (ia : bool) (st st' : Store) (e : exn) :
  prepare w p nc m ia st = (inl e, st') ->
  e <> TokenNotSet
  /\ (e = NoPrompt \/ e = NoValidToken \/ (exists msg, e = TokenFileError msg)
      \/ e = ModelListNotSet \/ e = CookieNotSet
      \/ exists availableModels, e = InvalidModel m availableModels).
Proof.
  intros H.
  assert (Hcases : e = NoPrompt \/ e = NoValidToken
                   \/ (exists msg, e = TokenFileError msg)
                   \/ e = ModelListNotSet \/ e = CookieNotSet
                   \/ exists availableModels, e = InvalidModel m availableModels).
  { revert H. rewrite prepare_eq.
    destruct (negb (nonEmpty (Some p))); [intros [= <- _]; auto|].
    destruct (getEnvironmentConfig w) as [e0|config] eqn:Hconfig.
    { intros [= <- _]. apply getEnvironmentConfig_errors in Hconfig.
      destruct Hconfig as [-> | Hmsg]; auto. }
    destruct (getAvailableModels w) as [e0|availableModels] eqn:Hmodels.
    { intros [= <- _]. unfold getAvailableModels in Hmodels.
      destruct (KAGI_MODEL_LIST (env w)) as [[|c t]|]; try discriminate;
        injection Hmodels as <-; auto 6. }
    destruct (negb (nonEmpty (KAGI_SEARCH_COOKIE (env w))));
      [intros [= <- _]; auto 6|].
    destruct (negb (includes availableModels m)).
    { intros [= <- _]. do 5 right. now exists availableModels. }
    cbv zeta.
    destruct (truthy (threadId (if nc then resetSession st else st)));
      discriminate. }
  split; [|exact Hcases].
  destruct Hcases as [-> | [-> | [[msg ->] | [-> | [-> | [l ->]]]]]]; discriminate.
Qed.

Lemma prepare_errors_witness :
  CookieNotSet <> TokenNotSet
  /\ (CookieNotSet = NoPrompt \/ CookieNotSet = NoValidToken
      \/ (exists msg, CookieNotSet = TokenFileError msg)
      \/ CookieNotSet = ModelListNotSet \/ CookieNotSet = CookieNotSet
      \/ exists availableModels,
          CookieNotSet = InvalidModel (Some (js "a")) availableModels).
Proof.
  apply (prepare_errors
           (Demo.world (mkEnv None (Some (js "a,b")) None (Some (js "token")) None) [])
           (js "hello") true (Some (js "a")) true initialStore initialStore).
  vm_compute. reflexivity.
Defined.

(** A response outside the 2xx range fails the call, 401 and 403 as an
    expired session, any other status with its code and text; the
    request has been sent, and the body is not looked at. *)
Theorem http_status_error (args : Args) (w : World) (st st1 : Store)
        (m : option jsstring) (req : Request) (status : N)
        (statusText : jsstring) (text : exn + jsstring) :
  modelParameter args w = inr m ->
  prepare w (prompt args) (orDefault (new_conversation args) true) m
          (orDefault (internet_access args) true) st = (inr req, st1) ->
  fetch w req = FetchResponse status statusText text ->
  (status < 200 \/ 299 < status)%N ->
  kagiAssistant args w st
  = (Resolved (VStr (if ((status =? 401) || (status =? 403))%N
                     then js "Error: Invalid or expired session token"
                     else js "Error: HTTP " ++ N_to_js status ++ js ": "
                          ++ statusText)),
     logged req st1).
Proof.
  intros Hm Hprep Hfetch Hstatus.
  rewrite kagiAssistant_eq, Hm, exchange_eq, Hprep.
  unfold send, bind, modify, throw. rewrite Hfetch.
  replace ((200 <=? status)%N && (status <=? 299)%N) with false.
  - cbn [negb]. destruct ((status =? 401)%N || (status =? 403)%N); reflexivity.
  - symmetry. apply andb_false_iff.
    destruct Hstatus as [Hlow | Hhigh];
      [left; now apply N.leb_gt | right; now apply N.leb_gt].
Qed.

Lemma http_status_error_witness :
  fst (kagiAssistant
         (Demo.args "hello" true "a")
         {| env := Demo.environment; tokenFile := ENOENT;
            fetch := fun _ => FetchResponse 503 (js "Service Unavailable")
                                            (inr Demo.responseText);
            JSON_parse := Demo.parse; uuidv4 := fun _ => [] |}
         initialStore)
  = Resolved (VStr (js "Error: HTTP 503: Service Unavailable")).
Proof.
  rewrite (http_status_error
             (Demo.args "hello" true "a") _ initialStore initialStore
             (Some (js "a"))
             (requestOf (Demo.world Demo.environment []) (js "session-token")
                        (payload VNull (js "hello") (Some (js "a")) true None))
             503 (js "Service Unavailable") (inr Demo.responseText)).
  - vm_compute. reflexivity.
  - reflexivity.
  - vm_compute. reflexivity.
  - reflexivity.
  - right. reflexivity.
Defined.

(** The session is reset before the request is sent: when a call for a
    new conversation gets past the checks and then fails in transport,
    the thread held before is gone all the same. *)
Theorem failed_new_conversation_clears_session (args : Args) (w : World)
        (st st1 st2 : Store) (m : option jsstring) (req : Request) (e : exn) :
  orDefault (new_conversation args) true = true ->
  modelParameter args w = inr m ->
  prepare w (prompt args) true m (orDefault (internet_access args) true) st
  = (inr req, st1) ->
  send w req st1 = (inl e, st2) ->
  kagiAssistant args w st
  = (Resolved (VStr (formatError e)), logged req (resetSession st)).
Proof.
  intros Hnew Hm Hprep Hsend.
  rewrite kagiAssistant_eq, Hm, exchange_eq, Hnew, Hprep, Hsend.
  apply send_store in Hsend. subst st2. f_equal. f_equal.
  revert Hprep. rewrite prepare_eq.
  destruct (negb (nonEmpty (Some (prompt args)))); [discriminate|].
  destruct (getEnvironmentConfig w); [discriminate|].
  destruct (getAvailableModels w); [discriminate|].
  destruct (negb (nonEmpty (KAGI_SEARCH_COOKIE (env w)))); [discriminate|].
  destruct (negb (includes l m)); [discriminate|].
  cbn. now intros [= _ <-].
Qed.

Lemma failed_new_conversation_clears_session_witness :
  threadId Demo.continued = VStr (js "abc")
  /\ threadId
       (snd (kagiAssistant
               (Demo.args "hello" true "a")
               {| env := Demo.environment; tokenFile := ENOENT;
                  fetch := fun _ => FetchRejected
                                      (Native (js "TypeError") (js "fetch failed"));
                  JSON_parse := Demo.parse; uuidv4 := fun _ => [] |}
               Demo.continued))
     = VNull.
Proof.
  split; [vm_compute; reflexivity|].
  rewrite (failed_new_conversation_clears_session
             (Demo.args "hello" true "a") _ Demo.continued
             (resetSession Demo.continued)
             (logged (requestOf (Demo.world Demo.environment [])
                                (js "session-token")
                                (payload VNull (js "hello") (Some (js "a")) true None))
                     (resetSession Demo.continued))
             (Some (js "a"))
             (requestOf (Demo.world Demo.environment []) (js "session-token")
                        (payload VNull (js "hello") (Some (js "a")) true None))
             (Native (js "TypeError") (js "fetch failed")));
    vm_compute; reflexivity.
Defined.

(** The thread document is handled first and on its own: once it yields
    a truthy [id], the session holds that identifier after the call,
    whatever becomes of the message document. *)
Theorem thread_document_advances_session (args : Args) (w : World)
        (st st2 : Store) (text threadJson : jsstring) (threadData id : value) :
  responded args w st text st2 ->
  extractJson text THREAD_MARKER = Some threadJson ->
  JSON_parse w threadJson = inr threadData ->
  getProp threadData (js "id") = inr id ->
  truthy id = true ->
  snd (kagiAssistant args w st) = advanced id st2.
Proof.
  intros Hresp Hextract Hparse Hid Htruthy.
  rewrite (kagiAssistant_responded args w st st2 text Hresp). cbn [snd].
  unfold threadUpdate. cbv zeta.
  rewrite Hextract, (extractJson_nonEmpty _ _ _ Hextract), Hparse, Hid, Htruthy.
  reflexivity.
Qed.

Lemma demo_responded (text : jsstring) (st : Store) :
  responded (Demo.args "hello" true "a") (Demo.world Demo.environment text) st text
            (logged (requestOf (Demo.world Demo.environment text) (js "session-token")
                               (payload VNull (js "hello") (Some (js "a")) true None))
                    (resetSession st)).
Proof.
  exists (Some (js "a")),
         (requestOf (Demo.world Demo.environment text) (js "session-token")
                    (payload VNull (js "hello") (Some (js "a")) true None)),
         (resetSession st).
  repeat split.
Qed.

Lemma thread_document_advances_session_witness :
  fst (kagiAssistant (Demo.args "hello" true "a")
         (Demo.world Demo.environment (js "thread.json: " ++ Demo.threadDoc))
         initialStore)
  = Resolved (VStr (js "Error: Failed to parse assistant response"))
  /\ threadId
       (snd (kagiAssistant (Demo.args "hello" true "a")
               (Demo.world Demo.environment (js "thread.json: " ++ Demo.threadDoc))
               initialStore))
     = VStr (js "abc").
Proof.
  split; [vm_compute; reflexivity|].
  rewrite (thread_document_advances_session
             (Demo.args "hello" true "a") _ initialStore _
             (js "thread.json: " ++ Demo.threadDoc) Demo.threadDoc
             (VObj [(js "id", VStr (js "abc"))]) (VStr (js "abc"))
             (demo_responded _ initialStore)).
  - reflexivity.
  - vm_compute. reflexivity.
  - vm_compute. reflexivity.
  - reflexivity.
  - reflexivity.
Defined.

(** A thread document that does not parse is no failure of the call: the
    error goes to the console, the session is left as it was, and the
    result is what the message document gives. *)
Theorem malformed_thread_document_ignored (args : Args) (w : World)
        (st st2 : Store) (text threadJson : jsstring) (e : exn) :
  responded args w st text st2 ->
  extractJson text THREAD_MARKER = Some threadJson ->
  JSON_parse w threadJson = inl e ->
  kagiAssistant args w st
  = (settle (replyOf w text (orDefault (format args) (js "markdown"))),
     warned e st2).
Proof.
  intros Hresp Hextract Hparse.
  rewrite (kagiAssistant_responded args w st st2 text Hresp). f_equal.
  unfold threadUpdate. cbv zeta.
  rewrite Hextract, (extractJson_nonEmpty _ _ _ Hextract), Hparse. reflexivity.
Qed.

Lemma malformed_thread_document_ignored_witness :
  kagiAssistant
    (Demo.args "hello" true "a")
    (Demo.world Demo.environment
       (jsq "thread.json: {'id':} new_message.json: " ++ Demo.messageDoc))
    initialStore
  = (Resolved (VStr (js "Hi")),
     warned (Native (js "SyntaxError") (js "Unexpected token in JSON"))
       (logged (requestOf (Demo.world Demo.environment []) (js "session-token")
                          (payload VNull (js "hello") (Some (js "a")) true None))
               initialStore)).
Proof.
  rewrite (malformed_thread_document_ignored
             (Demo.args "hello" true "a") _ initialStore _
             (jsq "thread.json: {'id':} new_message.json: " ++ Demo.messageDoc)
             (jsq "{'id':}")
             (Native (js "SyntaxError") (js "Unexpected token in JSON"))
             (demo_responded _ initialStore)).
  - vm_compute. reflexivity.
  - vm_compute. reflexivity.
  - vm_compute. reflexivity.
Defined.

(** A message document in any state but [done] fails the call, reply or
    no reply. *)
Theorem state_not_done_fails (args : Args) (w : World) (st st2 : Store)
        (text messageJson : jsstring) (messageData state : value) :
  responded args w st text st2 ->
  extractJson text MESSAGE_MARKER = Some messageJson ->
  JSON_parse w messageJson = inr messageData ->
  getProp messageData (js "state") = inr state ->
  isString state (js "done") = false ->
  fst (kagiAssistant args w st)
  = Resolved (VStr (js "Error: Assistant response not in expected format")).
Proof.
  intros Hresp Hextract Hparse Hstate Hdone.
  rewrite (kagiAssistant_responded args w st st2 text Hresp). cbn [fst].
  unfold replyOf. cbv zeta.
  rewrite Hextract, (extractJson_nonEmpty _ _ _ Hextract), Hparse, Hstate, Hdone.
  reflexivity.
Qed.

Lemma state_not_done_fails_witness :
  fst (kagiAssistant
         (Demo.args "hello" true "a")
         {| env := Demo.environment; tokenFile := ENOENT;
            fetch := fun _ => FetchResponse 200 (js "OK")
                                (inr (jsq "new_message.json: {'state':'waiting','reply':'<p>Hi</p>'}"));
            JSON_parse := fun _ => inr (VObj [(js "state", VStr (js "waiting"));
                                              (js "reply", VStr (js "<p>Hi</p>"))]);
            uuidv4 := fun _ => [] |}
         initialStore)
  = Resolved (VStr (js "Error: Assistant response not in expected format")).
Proof.
  apply (state_not_done_fails
           (Demo.args "hello" true "a") _ initialStore
           (logged (requestOf (Demo.world Demo.environment []) (js "session-token")
                              (payload VNull (js "hello") (Some (js "a")) true None))
                   initialStore)
           (jsq "new_message.json: {'state':'waiting','reply':'<p>Hi</p>'}")
           (jsq "{'state':'waiting','reply':'<p>Hi</p>'}")
           (VObj [(js "state", VStr (js "waiting"));
                  (js "reply", VStr (js "<p>Hi</p>"))])
           (VStr (js "waiting"))).
  - exists (Some (js "a")),
           (requestOf (Demo.world Demo.environment []) (js "session-token")
                      (payload VNull (js "hello") (Some (js "a")) true None)),
           initialStore.
    repeat split.
  - vm_compute. reflexivity.
  - reflexivity.
  - reflexivity.
  - reflexivity.
Defined.

(** The reply of a finished message comes back as markdown unless the
    format asked for is [html] or [plain]: by default, and for any
    other format name as well. *)
Theorem reply_as_markdown_by_default (args : Args) (w : World) (st st2 : Store)
        (text messageJson : jsstring) (messageData : value) (reply : jsstring) :
  responded args w st text st2 ->
  extractJson text MESSAGE_MARKER = Some messageJson ->
  JSON_parse w messageJson = inr messageData ->
  getProp messageData (js "state") = inr (VStr (js "done")) ->
  getProp messageData (js "reply") = inr (VStr reply) ->
  reply <> [] ->
  str_eqb (orDefault (format args) (js "markdown")) (js "html") = false ->
  str_eqb (orDefault (format args) (js "markdown")) (js "plain") = false ->
  fst (kagiAssistant args w st) = Resolved (VStr (htmlToMarkdown reply)).
Proof.
  intros Hresp Hextract Hparse Hstate Hreply Hne Hhtml Hplain.
  rewrite (kagiAssistant_responded args w st st2 text Hresp). cbn [fst].
  unfold replyOf. cbv zeta.
  rewrite Hextract, (extractJson_nonEmpty _ _ _ Hextract), Hparse, Hstate, Hreply.
  cbn [negb isString]. rewrite str_eqb_refl.
  replace (truthy (VStr reply)) with true by (destruct reply; [now elim Hne | reflexivity]).
  rewrite (formatResponse_default _ _ Hhtml Hplain). reflexivity.
Qed.

Lemma reply_as_markdown_by_default_witness :
  fst (kagiAssistant
         {| prompt := js "hello"; new_conversation := None; model := Some (js "a");
            internet_access := None; format := Some (js "text") |}
         (Demo.world Demo.environment Demo.responseText) initialStore)
  = Resolved (VStr (htmlToMarkdown (js "<p>Hi</p>"))).
Proof.
  apply (reply_as_markdown_by_default
           _ _ initialStore
           (logged (requestOf (Demo.world Demo.environment []) (js "session-token")
                              (payload VNull (js "hello") (Some (js "a")) true None))
                   initialStore)
           Demo.responseText Demo.messageDoc
           (VObj [(js "state", VStr (js "done")); (js "reply", VStr (js "<p>Hi</p>"))])
           (js "<p>Hi</p>")).
  - exists (Some (js "a")),
           (requestOf (Demo.world Demo.environment []) (js "session-token")
                      (payload VNull (js "hello") (Some (js "a")) true None)),
           initialStore.
    repeat split.
  - vm_compute. reflexivity.
  - vm_compute. reflexivity.
  - reflexivity.
  - reflexivity.
  - discriminate.
  - reflexivity.
  - reflexivity.
Defined.

(** The configured default model goes through the same validation as a
    requested one: a default that is not in the allow-list makes every
    call that leaves the model out fail, naming the default and the
    list. *)
Theorem default_model_is_validated (args : Args) (w : World) (st : Store)
        (d : jsstring) (config : jsstring * jsstring)
        (availableModels : list jsstring) :
  model args = None ->
  KAGI_DEFAULT_MODEL (env w) = Some d -> d <> [] ->
  nonEmpty (Some (prompt args)) = true ->
  getEnvironmentConfig w = inr config ->
  nonEmpty (KAGI_SEARCH_COOKIE (env w)) = true ->
  getAvailableModels w = inr availableModels ->
  includes availableModels (Some d) = false ->
  kagiAssistant args w st
  = (Resolved (VStr (js "Error: Invalid model " ++ [DQUOTE] ++ d ++ [DQUOTE]
                     ++ js ". Available models: "
                     ++ join (js ", ") availableModels)), st).
Proof.
  intros Hmodel Hd Hne Hprompt Hconfig Hcookie Hmodels Hnotin.
  rewrite kagiAssistant_eq. unfold modelParameter. rewrite Hmodel.
  rewrite (getDefaultModel_configured w d Hd Hne).
  rewrite exchange_eq, prepare_eq.
  rewrite Hprompt, Hconfig, Hmodels, Hcookie, Hnotin. reflexivity.
Qed.

Lemma default_model_is_validated_witness :
  kagiAssistant
    (Demo.promptOnly "hello")
    (Demo.world (mkEnv (Some (js "gpt")) (Some (js "a,b")) (Some (js "cookie"))
                       (Some (js "token")) None) [])
    initialStore
  = (Resolved (VStr (js "Error: Invalid model " ++ [DQUOTE] ++ js "gpt" ++ [DQUOTE]
                     ++ js ". Available models: a, b")), initialStore).
Proof.
  apply (default_model_is_validated
           (Demo.promptOnly "hello") _ initialStore (js "gpt")
           (js "token", js "default") [js "a"; js "b"]);
    try discriminate; vm_compute; reflexivity.
Defined.

(** With a model list that holds no entry and no default configured, a
    call that leaves the model out is refused for the model
    [undefined]. *)
Theorem no_entry_no_default (args : Args) (w : World) (st : Store)
        (config : jsstring * jsstring) :
  model args = None ->
  nonEmpty (KAGI_DEFAULT_MODEL (env w)) = false ->
  getAvailableModels w = inr [] ->
  nonEmpty (Some (prompt args)) = true ->
  getEnvironmentConfig w = inr config ->
  nonEmpty (KAGI_SEARCH_COOKIE (env w)) = true ->
  kagiAssistant args w st
  = (Resolved (VStr (js "Error: Invalid model " ++ [DQUOTE] ++ js "undefined"
                     ++ [DQUOTE] ++ js ". Available models: ")), st).
Proof.
  intros Hmodel Hdefault Hmodels Hprompt Hconfig Hcookie.
  rewrite kagiAssistant_eq. unfold modelParameter, getDefaultModel.
  rewrite Hmodel, Hmodels.
  destruct (KAGI_DEFAULT_MODEL (env w)) as [[|c t]|]; try discriminate;
    cbn [hd_error]; rewrite exchange_eq, prepare_eq;
    rewrite Hprompt, Hconfig, Hmodels, Hcookie; reflexivity.
Qed.

Lemma no_entry_no_default_witness :
  kagiAssistant (Demo.promptOnly "hello")
                (Demo.world Demo.blankModelList []) initialStore
  = (Resolved (VStr (js "Error: Invalid model " ++ [DQUOTE] ++ js "undefined"
                     ++ [DQUOTE] ++ js ". Available models: ")), initialStore).
Proof.
  apply (no_entry_no_default (Demo.promptOnly "hello") _ initialStore
                             (js "session-token", js "default"));
    vm_compute; reflexivity.
Defined.

Lemma receive_store (w : World) (text fmt : jsstring) (st st' : Store)
      (r : exn + value) :
  receive w text fmt st = (r, st') ->
  uuidCalls st' = uuidCalls st /\ requests st' = requests st.
Proof.
  rewrite receive_eq. intros [= _ <-]. unfold threadUpdate. cbv zeta.
  destruct (nonEmpty (extractJson text THREAD_MARKER)); [|auto].
  destruct (JSON_parse w _) as [e|threadData]; [auto|].
  destruct (getProp threadData (js "id")) as [e|id]; [auto|].
  destruct (truthy id); auto.
Qed.

(** The accounts of a call: it sends one request at most, and draws an
    identifier exactly when the request it sends carries a
    [message_id]. *)
Theorem call_accounts (args : Args) (w : World) (st : Store) :
  exists sent,
    requests (snd (kagiAssistant args w st)) = requests st ++ sent
    /\ length sent <= 1
    /\ uuidCalls (snd (kagiAssistant args w st))
       = uuidCalls st
         + length (filter (fun req => match message_id (focus (body req)) with
                                      | Some _ => true
                                      | None => false
                                      end) sent).
Proof.
  rewrite kagiAssistant_eq.
  destruct (modelParameter args w) as [e|m].
  { exists []. cbn. rewrite app_nil_r. repeat split; lia. }
  rewrite exchange_eq.
  destruct (prepare _ _ _ _ _ _) as [[e|req] st1] eqn:Hprep.
  { apply prepare_fails_unchanged in Hprep. subst st1.
    exists []. cbn. rewrite app_nil_r. repeat split; lia. }
  assert (Hst1 : requests st1 = requests st
                 /\ uuidCalls st1
                    = uuidCalls st
                      + match message_id (focus (body req)) with
                        | Some _ => 1
                        | None => 0
                        end).
  { revert Hprep. rewrite prepare_eq.
    destruct (negb (nonEmpty (Some (prompt args)))); [discriminate|].
    destruct (getEnvironmentConfig w); [discriminate|].
    destruct (getAvailableModels w); [discriminate|].
    destruct (negb (nonEmpty (KAGI_SEARCH_COOKIE (env w)))); [discriminate|].
    destruct (negb (includes l m)); [discriminate|].
    cbv zeta.
    destruct (truthy (threadId (if orDefault (new_conversation args) true
                                then resetSession st else st)));
      intros [= <- <-]; destruct (orDefault (new_conversation args) true);
      cbn; split; try reflexivity; lia. }
  destruct Hst1 as [Hreq1 Huuid1].
  exists [req]. cbn [length filter].
  destruct (send w req st1) as [[e|text] st2] eqn:Hsend;
    apply send_store in Hsend; subst st2.
  - cbn [snd logged requests uuidCalls]. rewrite Hreq1, Huuid1.
    repeat split; [lia|]. destruct (message_id (focus (body req))); reflexivity.
  - destruct (receive w text _ (logged req st1)) as [[e|v] st3] eqn:Hrecv;
      apply receive_store in Hrecv as [Huuid3 Hreq3];
      cbn [snd]; rewrite Hreq3, Huuid3; cbn [logged requests uuidCalls];
      rewrite Hreq1, Huuid1;
      (repeat split; [lia|]);
      destruct (message_id (focus (body req))); reflexivity.
Qed.


(* ================================================================== *)
(** * Properties of the summarizer tool *)
(* ================================================================== *)

Lemma str_eqb_eq (a b : jsstring) : str_eqb a b = true -> a = b.
Proof.
  revert b. induction a as [|x a IH]; intros [|y b] H; simpl in H;
    try discriminate; [reflexivity|].
  apply andb_true_iff in H as [Hxy H]. apply N.eqb_eq in Hxy.
  f_equal; [assumption | now apply IH].
Qed.

(** Every error of the summarizer comes back as the text of the result:
    its parameters have constant defaults, so nothing runs outside the
    [try] block. *)
Theorem kagiSummarizer_always_resolves (args : Summarizer.Args) (w : World)
        (sv : Summarizer.Services) :
  exists text,
    Summarizer.outcome (Summarizer.kagiSummarizer args w sv) = Resolved text.
Proof.
  unfold Summarizer.kagiSummarizer.
  destruct (Summarizer.attempt args w sv) as [[[e|text] console] calls];
    eexists; reflexivity.
Qed.

(** What reaches the summarizing service: one call at most, and then a
    URL and a token that are not empty, the token trimmed, a type that is
    [summary] or [takeaway], a language that is not empty, and the URL
    flag up. *)
Theorem kagiSummarizer_calls (args : Summarizer.Args) (w : World)
        (sv : Summarizer.Services) :
  length (Summarizer.calls (Summarizer.kagiSummarizer args w sv)) <= 1
  /\ forall u token options,
      In (u, token, options)
         (Summarizer.calls (Summarizer.kagiSummarizer args w sv)) ->
      u = Summarizer.url args /\ u <> []
      /\ token <> [] /\ trimmed token
      /\ (Summarizer.type options = js "summary"
          \/ Summarizer.type options = js "takeaway")
      /\ Summarizer.language options <> []
      /\ Summarizer.isUrl options = true.
Proof.
  unfold Summarizer.kagiSummarizer, Summarizer.attempt. cbv zeta.
  destruct (Summarizer.url args) as [|c u0] eqn:Hurl.
  { split; [simpl; lia | intros u token options []]. }
  cbn [nonEmpty negb].
  destruct (getEnvironmentConfig w) as [e|[token engine]] eqn:Hconfig.
  { split; [simpl; lia | intros u tk options []]. }
  destruct (existsb _ [js "summary"; js "takeaway"]) eqn:Htype; cbn [negb].
  2:{ split; [simpl; lia | intros u tk options []]. }
  set (options := {| Summarizer.type := _; Summarizer.language := _;
                     Summarizer.isUrl := true |}).
  assert (Hin : forall u tk o,
            In (u, tk, o) [(c :: u0, token, options)] ->
            u = c :: u0 /\ u <> []
            /\ tk <> [] /\ trimmed tk
            /\ (Summarizer.type o = js "summary"
                \/ Summarizer.type o = js "takeaway")
            /\ Summarizer.language o <> []
            /\ Summarizer.isUrl o = true).
  { intros u tk o [[= <- <- <-] | []].
    unfold getEnvironmentConfig in Hconfig.
    destruct (resolveToken w) as [e|token'] eqn:Htoken; [discriminate|].
    injection Hconfig as -> _.
    apply resolveToken_shape in Htoken as [Hne Htrim].
    split; [reflexivity|]. split; [discriminate|].
    split; [assumption|]. split; [assumption|].
    split; [|split; [|reflexivity]].
    - subst options. cbn [Summarizer.type].
      cbn [existsb] in Htype. rewrite orb_false_r in Htype.
      apply orb_true_iff in Htype as [H | H]; apply str_eqb_eq in H;
        [left | right]; now symmetry.
    - subst options. cbn [Summarizer.language].
      destruct (Summarizer.target_language args) as [[|x l]|];
        cbn; discriminate. }
  destruct (Summarizer.summarize sv (c :: u0) token options) as [e|result];
    cbn [Summarizer.calls]; (split; [simpl; lia | exact Hin]).
Qed.

(** The engine setting and the list of supported languages have no
    effect on the summary: neither the result nor the call to the
    service depends on them, they only add lines to the console. *)
Theorem kagiSummarizer_settings_only_warn (args : Summarizer.Args) (w : World)
        (sv : Summarizer.Services) (engine : option jsstring)
        (supported : option (list jsstring)) :
  Summarizer.outcome
    (Summarizer.kagiSummarizer args (Summarizer.withEngine engine w)
                               (Summarizer.withLanguages supported sv))
  = Summarizer.outcome (Summarizer.kagiSummarizer args w sv)
  /\ Summarizer.calls
       (Summarizer.kagiSummarizer args (Summarizer.withEngine engine w)
                                  (Summarizer.withLanguages supported sv))
     = Summarizer.calls (Summarizer.kagiSummarizer args w sv).
Proof.
  unfold Summarizer.kagiSummarizer, Summarizer.attempt. cbv zeta.
  destruct (negb (nonEmpty (Some (Summarizer.url args)))); [split; reflexivity|].
  assert (Hconfig :
    match getEnvironmentConfig (Summarizer.withEngine engine w),
          getEnvironmentConfig w with
    | inl e', inl e => e' = e
    | inr (token', _), inr (token, _) => token' = token
    | _, _ => False
    end).
  { unfold getEnvironmentConfig.
    change (resolveToken (Summarizer.withEngine engine w)) with (resolveToken w).
    destruct (resolveToken w); reflexivity. }
  destruct (getEnvironmentConfig (Summarizer.withEngine engine w))
    as [e'|[token' engine']];
    destruct (getEnvironmentConfig w) as [e|[token engine0]];
    try contradiction; subst.
  { split; reflexivity. }
  destruct (negb (existsb _ [js "summary"; js "takeaway"])); [split; reflexivity|].
  cbn [Summarizer.withLanguages Summarizer.summarize Summarizer.SUPPORTED_LANGUAGES].
  destruct (Summarizer.summarize sv _ _ _) as [e|result]; split; reflexivity.
Qed.

(* ================================================================== *)
(** * Properties of the module load *)
(* ================================================================== *)

(** The module loads exactly when the model list is set, whether a
    default model is configured or not; otherwise the load fails with
    the error of the missing list. *)
Theorem assistantInputSchema_loads_iff (w : World) :
  (nonEmpty (KAGI_MODEL_LIST (env w)) = true
   <-> exists schema, assistantInputSchema w = inr schema)
  /\ (nonEmpty (KAGI_MODEL_LIST (env w)) = false
      <-> assistantInputSchema w = inl ModelListNotSet).
Proof.
  unfold assistantInputSchema, getDefaultModel, getAvailableModels.
  destruct (KAGI_MODEL_LIST (env w)) as [[|c t]|];
    destruct (KAGI_DEFAULT_MODEL (env w)) as [[|x d]|]; cbn [nonEmpty];
    (split; split; intros H;
     try discriminate; try reflexivity; try (eexists; reflexivity);
     try (destruct H as [schema H]; discriminate)).
Qed.

(** In the environment the module was loaded in, no call of the tool is
    rejected: the default of the [model] parameter can be worked out
    there, and every later error is caught. *)
Theorem loaded_module_never_rejects (w : World) (schema : InputSchema) :
  assistantInputSchema w = inr schema ->
  forall (args : Args) (st : Store),
    exists text, fst (kagiAssistant args w st) = Resolved text.
Proof.
  unfold assistantInputSchema. intros Hload args st.
  destruct (getDefaultModel w) as [e|d] eqn:Hdefault; [discriminate|].
  apply (kagiAssistant_catches args w st
           (match model args with Some m => Some m | None => d end)).
  unfold modelParameter. destruct (model args); [reflexivity | exact Hdefault].
Qed.

Lemma loaded_module_never_rejects_witness :
  exists text,
    fst (kagiAssistant (Demo.promptOnly "hello")
                       (Demo.world Demo.environment Demo.responseText) initialStore)
    = Resolved text.
Proof.
  apply (loaded_module_never_rejects
           (Demo.world Demo.environment Demo.responseText)
           {| model_default := Some (js "a");
              model_description :=
                js "AI model to use for the conversation. Available models: a, b" |}).
  vm_compute. reflexivity.
Defined.

(* ================================================================== *)
(** * What goes over the wire *)
(* ================================================================== *)

Lemma includes_In (l : list jsstring) (m : option jsstring) :
  includes l m = true -> exists name, m = Some name /\ In name l.
Proof.
  destruct m as [name|]; [|discriminate]. cbn [includes]. intros H.
  apply existsb_exists in H as (x & Hin & Heq).
  apply str_eqb_eq in Heq. subst x. now exists name.
Qed.

(** A request is sent only once every check has passed: to the fixed
    address, with a prompt that is not empty, a model of the allow-list,
    the branch sentinel, and a cookie made of a resolved token and of a
    search cookie that is not empty. *)
Theorem sent_request_checked (args : Args) (w : World) (st : Store)
        (sent : list Request) (req : Request) :
  requests (snd (kagiAssistant args w st)) = requests st ++ sent ->
  In req sent ->
  url req = js "https://kagi.com/assistant/prompt"
  /\ method req = js "POST"
  /\ branch_id (focus (body req)) = BRANCH_SENTINEL
  /\ focus_prompt (focus (body req)) = prompt args
  /\ prompt args <> []
  /\ exists name availableModels token cookie,
      profile_model (profile (body req)) = Some name
      /\ getAvailableModels w = inr availableModels
      /\ In name availableModels
      /\ resolveToken w = inr token
      /\ KAGI_SEARCH_COOKIE (env w) = Some cookie
      /\ cookie <> []
      /\ In (js "cookie",
             js "kagi_session=" ++ token ++ js "; _kagi_search_=" ++ cookie)
            (headers req).
Proof.
  intros Hsent Hin.
  rewrite kagiAssistant_requests in Hsent. apply app_inv_head in Hsent.
  subst sent. unfold sentBy in Hin.
  destruct (modelParameter args w) as [e|m]; [destruct Hin|].
  rewrite prepare_eq in Hin.
  destruct (prompt args) as [|c p] eqn:Hprompt; [destruct Hin|].
  cbn [nonEmpty negb] in Hin.
  destruct (getEnvironmentConfig w) as [e|config] eqn:Hconfig; [destruct Hin|].
  destruct (getAvailableModels w) as [e|availableModels] eqn:Hmodels;
    [destruct Hin|].
  destruct (KAGI_SEARCH_COOKIE (env w)) as [[|k cookie]|] eqn:Hcookie;
    try (destruct Hin; fail).
  cbn [nonEmpty negb] in Hin.
  destruct (includes availableModels m) eqn:Hincl; [|destruct Hin].
  cbn [negb] in Hin.
  apply includes_In in Hincl as (name & -> & Hname).
  assert (Htoken : resolveToken w = inr (fst config)).
  { unfold getEnvironmentConfig in Hconfig.
    destruct (resolveToken w); [discriminate|]. now injection Hconfig as <-. }
  cbv zeta in Hin.
  assert (Hreq : exists data,
             req = requestOf w (fst config) data
             /\ branch_id (focus data) = BRANCH_SENTINEL
             /\ focus_prompt (focus data) = c :: p
             /\ profile_model (profile data) = Some name).
  { destruct (truthy (threadId (if orDefault (new_conversation args) true
                                then resetSession st else st)));
      destruct Hin as [<- | []]; eexists; repeat split. }
  destruct Hreq as (data & -> & Hbranch & Hfocus & Hmodel).
  repeat split; try assumption; try discriminate.
  exists name, availableModels, (fst config), (k :: cookie).
  repeat split; try assumption; try discriminate.
  unfold requestOf, requestHeaders. cbn [headers]. rewrite Hcookie.
  do 14 right. left. reflexivity.
Qed.

Lemma sent_request_checked_witness :
  url Demo.again = js "https://kagi.com/assistant/prompt"
  /\ method Demo.again = js "POST"
  /\ branch_id (focus (body Demo.again)) = BRANCH_SENTINEL
  /\ focus_prompt (focus (body Demo.again))
     = prompt (Demo.args "again" false "a")
  /\ prompt (Demo.args "again" false "a") <> []
  /\ exists name availableModels token cookie,
      profile_model (profile (body Demo.again)) = Some name
      /\ getAvailableModels (Demo.world Demo.environment Demo.responseText)
         = inr availableModels
      /\ In name availableModels
      /\ resolveToken (Demo.world Demo.environment Demo.responseText) = inr token
      /\ KAGI_SEARCH_COOKIE (env (Demo.world Demo.environment Demo.responseText))
         = Some cookie
      /\ cookie <> []
      /\ In (js "cookie",
             js "kagi_session=" ++ token ++ js "; _kagi_search_=" ++ cookie)
            (headers Demo.again).
Proof.
  apply (sent_request_checked
           (Demo.args "again" false "a")
           (Demo.world Demo.environment Demo.responseText)
           Demo.continued [Demo.again] Demo.again).
  - vm_compute. reflexivity.
  - left. reflexivity.
Defined.

(* ================================================================== *)
(** * The summarizer on an example *)
(* ================================================================== *)

(** A run with a language outside the supported ones and a configured
    engine: two lines on the console, and the text of [data.output],
    the [summary] of the result being empty. *)
Example summarizer_run :
  Summarizer.kagiSummarizer
    {| Summarizer.url := js "https://example.org/doc";
       Summarizer.summary_type := None;
       Summarizer.target_language := Some (js "FR") |}
    (Summarizer.withEngine (Some (js "cecil")) (Demo.world Demo.environment []))
    Summarizer.demo
  = {| Summarizer.outcome := Resolved (VStr (js "In short."));
       Summarizer.console :=
         [js "Warning: Language 'FR' may not be supported. Supported languages: EN, DE";
          js "Note: Engine selection (cecil) from KAGI_SUMMARIZER_ENGINE may not be supported by kagi-ken. Using default behavior."];
       Summarizer.calls :=
         [(js "https://example.org/doc", js "session-token",
           {| Summarizer.type := js "summary"; Summarizer.language := js "FR";
              Summarizer.isUrl := true |})] |}.
Proof. vm_compute. reflexivity. Qed.

Lemma kagiSummarizer_calls_witness :
  js "session-token" <> [] /\ trimmed (js "session-token")
  /\ (Summarizer.type (Summarizer.mkOptions (js "takeaway") (js "EN") true)
      = js "summary"
      \/ Summarizer.type (Summarizer.mkOptions (js "takeaway") (js "EN") true)
         = js "takeaway").
Proof.
  destruct (kagiSummarizer_calls
              {| Summarizer.url := js "https://example.org/doc";
                 Summarizer.summary_type := Some (js "takeaway");
                 Summarizer.target_language := None |}
              (Demo.world Demo.environment []) Summarizer.demo)
    as [_ Hcalls].
  destruct (Hcalls (js "https://example.org/doc") (js "session-token")
                   (Summarizer.mkOptions (js "takeaway") (js "EN") true))
    as (_ & _ & Htoken & Htrim & Htype & _).
  - vm_compute. left. reflexivity.
  - auto.
Defined.
